(** * Playback orchestration of the voice player service

    A shallow embedding of [src/services/player.service.ts]: the
    [PlayerService] singleton with its four maps keyed by guild id, the
    [PlayerState] objects they point to, the closures created by
    [setupInfinitePlayback] (with their private [isLoadingTrack] flag), and
    the pending [setTimeout] callbacks.

    Conventions of the embedding.
    - A JS [Map<string, _>] is a [gmap string _].
    - [PlayerState] objects are shared by reference between the map
      [playerStates] and the closures of the player listeners, so they live
      in a store ([objects]) and the map holds references into it.
    - A handler runs to completion before the next event is taken; the
      results of the awaited external calls made on the way are supplied
      with the event ([Env]).
    - Calls to the outside world (transport, Discord messages, the music
      service) are appended to [trace] in program order.
    - [console.log] / [console.error] are not recorded. *)

From stdpp Require Import gmap strings list fin_maps.
From Stdlib Require Import ZArith.

Set Default Proof Using "Type".

(** ** Data *)

(** [ITrackInfo] (declared in yandex-music.service, used here through the
    fields [id], [title], [artist], [album], [coverUrl]). *)
Record ITrackInfo := mkTrackInfo {
  ti_id : string;
  ti_title : string;
  ti_artist : string;
  ti_album : string;
  ti_coverUrl : option string
}.

Record Artist := mkArtist { artist_name : string }.
Record Album := mkAlbum { album_title : string }.

(** [IYandexTrack], with the fields the object literals of the service
    fill in. *)
Record IYandexTrack := mkYandexTrack {
  yt_id : string;
  yt_title : string;
  yt_artists : list Artist;
  yt_albums : list Album;
  yt_coverUri : string
}.

(** A Discord message as far as the service looks at it:
    [message.guild?.id] and [message.editable]. *)
Record Message := mkMessage {
  msg_id : nat;
  msg_guild : option string;
  msg_editable : bool
}.

Record AudioResource := mkResource { res_url : string }.

(** Handles of the voice library; objects of a store. *)
Definition AudioPlayer := nat.
Definition VoiceConnection := nat.
(** A reference to a [PlayerState] object. *)
Definition Ref := nat.
(** One activation of [setupInfinitePlayback] (its closure). *)
Definition Activation := nat.

Record PlayerState := mkPlayerState {
  isPlaying : bool;
  currentTrack : option ITrackInfo;
  previousTracks : list IYandexTrack;
  trackQueue : list IYandexTrack;
  accessToken : string;
  userId : string;
  stationId : string;
  embedMessage : option Message;
  trackStartTime : option Z;
  retryCount : Z;
  lastTrackId : option string
}.

Definition with_isPlaying (b : bool) (p : PlayerState) : PlayerState :=
  mkPlayerState b (currentTrack p) (previousTracks p) (trackQueue p)
    (accessToken p) (userId p) (stationId p) (embedMessage p)
    (trackStartTime p) (retryCount p) (lastTrackId p).

Definition with_currentTrack (t : option ITrackInfo) (p : PlayerState) : PlayerState :=
  mkPlayerState (isPlaying p) t (previousTracks p) (trackQueue p)
    (accessToken p) (userId p) (stationId p) (embedMessage p)
    (trackStartTime p) (retryCount p) (lastTrackId p).

Definition with_previousTracks (h : list IYandexTrack) (p : PlayerState) : PlayerState :=
  mkPlayerState (isPlaying p) (currentTrack p) h (trackQueue p)
    (accessToken p) (userId p) (stationId p) (embedMessage p)
    (trackStartTime p) (retryCount p) (lastTrackId p).

Definition with_trackQueue (q : list IYandexTrack) (p : PlayerState) : PlayerState :=
  mkPlayerState (isPlaying p) (currentTrack p) (previousTracks p) q
    (accessToken p) (userId p) (stationId p) (embedMessage p)
    (trackStartTime p) (retryCount p) (lastTrackId p).

Definition with_trackStartTime (t : option Z) (p : PlayerState) : PlayerState :=
  mkPlayerState (isPlaying p) (currentTrack p) (previousTracks p) (trackQueue p)
    (accessToken p) (userId p) (stationId p) (embedMessage p)
    t (retryCount p) (lastTrackId p).

Definition with_retryCount (n : Z) (p : PlayerState) : PlayerState :=
  mkPlayerState (isPlaying p) (currentTrack p) (previousTracks p) (trackQueue p)
    (accessToken p) (userId p) (stationId p) (embedMessage p)
    (trackStartTime p) n (lastTrackId p).

Definition with_lastTrackId (i : option string) (p : PlayerState) : PlayerState :=
  mkPlayerState (isPlaying p) (currentTrack p) (previousTracks p) (trackQueue p)
    (accessToken p) (userId p) (stationId p) (embedMessage p)
    (trackStartTime p) (retryCount p) i.

(** The closure of one call of [setupInfinitePlayback]: its arguments, the
    [guildId] it computed and its mutable local [isLoadingTrack]. *)
Record Playback := mkPlayback {
  pb_player : AudioPlayer;
  pb_accessToken : string;
  pb_stationId : string;
  pb_embedMessage : option Message;
  pb_guildId : string;
  isLoadingTrack : bool
}.

Definition with_isLoadingTrack (b : bool) (c : Playback) : Playback :=
  mkPlayback (pb_player c) (pb_accessToken c) (pb_stationId c)
    (pb_embedMessage c) (pb_guildId c) b.

(** The three kinds of callback handed to [setTimeout]. *)
Inductive Callback :=
  | RetryAfterError (a : Activation) (playerState : Ref)
  | RetryAfterIdle (a : Activation) (playerState : Ref)
  | EmitIdleAgain (a : Activation).

Record Timer := mkTimer { tm_delay : Z; tm_callback : Callback }.

(** What the embeds shown in the channel say. *)
Inductive Embed :=
  | LoadingEmbed (t : ITrackInfo)
  | NowPlayingEmbed (t : ITrackInfo)
  | StreamUrlErrorEmbed (t : ITrackInfo)
  | PlaybackErrorEmbed (t : ITrackInfo)
  | ProblemEmbed (t : ITrackInfo)
  | ReconnectEmbed (t : ITrackInfo)
  | FinishedEmbed
  | StoppedEmbed
  | InitialEmbed.

Inductive Reply :=
  | ReplyNotFound
  | ReplyNoCurrentTrack
  | ReplyLiked (t : ITrackInfo)
  | ReplyLikeFailed
  | ReplyLikeError
  | ReplyNoPreviousTracks
  | ReplyPrevious
  | ReplyPreviousError
  | ReplyPaused
  | ReplyPauseError
  | ReplyResumed
  | ReplyResumeError
  | ReplyStopped
  | ReplyStopError
  | ReplyNext.

(** Calls that leave the service. *)
Inductive Effect :=
  | Join (guildId : string) (c : VoiceConnection)
  | Subscribe (c : VoiceConnection) (p : AudioPlayer)
  | ConnectionDestroy (c : VoiceConnection)
  | TransportPlay (p : AudioPlayer) (r : AudioResource)
  | TransportPause (p : AudioPlayer)
  | TransportUnpause (p : AudioPlayer)
  | TransportStop (p : AudioPlayer)
  | SendEmbed (guildId : string) (e : Embed)
  | EditEmbed (m : Message) (e : Embed)
  | EditControls (m : Message) (playing : bool)
  | RemoveControls (m : Message)
  | InteractionReply (r : Reply)
  | TrackStartedFeedback (token station trackId : string)
  | StreamUrlRequest (token trackId : string)
  | StationTracksRequest (token station : string)
  | LikeRequest (token user trackId : string).

(** The singleton [PlayerService].  [listeners] records, per player, the
    activation whose [Idle] and ['error'] listeners are installed: the two
    are removed and installed together. *)
Record Service := mkService {
  players : gmap string AudioPlayer;
  connections : gmap string VoiceConnection;
  playerStates : gmap string Ref;
  currentResources : gmap string AudioResource;
  objects : gmap Ref PlayerState;
  closures : gmap Activation Playback;
  listeners : gmap AudioPlayer Activation;
  timers : list Timer;
  trace : list Effect;
  nextHandle : nat
}.

Definition emptyService : Service :=
  mkService ∅ ∅ ∅ ∅ ∅ ∅ ∅ [] [] 0.

Definition with_players (v : gmap string AudioPlayer) (s : Service) : Service :=
  mkService v (connections s) (playerStates s) (currentResources s) (objects s)
    (closures s) (listeners s) (timers s) (trace s)
    (nextHandle s).

Definition with_connections (v : gmap string VoiceConnection) (s : Service) : Service :=
  mkService (players s) v (playerStates s) (currentResources s) (objects s)
    (closures s) (listeners s) (timers s) (trace s)
    (nextHandle s).

Definition with_playerStates (v : gmap string Ref) (s : Service) : Service :=
  mkService (players s) (connections s) v (currentResources s) (objects s)
    (closures s) (listeners s) (timers s) (trace s)
    (nextHandle s).

Definition with_currentResources (v : gmap string AudioResource) (s : Service) : Service :=
  mkService (players s) (connections s) (playerStates s) v (objects s)
    (closures s) (listeners s) (timers s) (trace s)
    (nextHandle s).

Definition with_objects (v : gmap Ref PlayerState) (s : Service) : Service :=
  mkService (players s) (connections s) (playerStates s) (currentResources s) v
    (closures s) (listeners s) (timers s) (trace s)
    (nextHandle s).

Definition with_closures (v : gmap Activation Playback) (s : Service) : Service :=
  mkService (players s) (connections s) (playerStates s) (currentResources s)
    (objects s) v (listeners s) (timers s) (trace s)
    (nextHandle s).

Definition with_listeners (v : gmap AudioPlayer Activation) (s : Service) : Service :=
  mkService (players s) (connections s) (playerStates s) (currentResources s)
    (objects s) (closures s) v (timers s) (trace s)
    (nextHandle s).

Definition with_timers (v : list Timer) (s : Service) : Service :=
  mkService (players s) (connections s) (playerStates s) (currentResources s)
    (objects s) (closures s) (listeners s) v (trace s)
    (nextHandle s).

Definition with_trace (v : list Effect) (s : Service) : Service :=
  mkService (players s) (connections s) (playerStates s) (currentResources s)
    (objects s) (closures s) (listeners s) (timers s) v
    (nextHandle s).

Definition with_nextHandle (v : nat) (s : Service) : Service :=
  mkService (players s) (connections s) (playerStates s) (currentResources s)
    (objects s) (closures s) (listeners s) (timers s)
    (trace s) v.

(** ** Computations of the service

    A method body is a function from the service to an outcome and the
    service it leaves behind.  A thrown exception keeps every mutation made
    before the throw, as in JS. *)

Inductive Res (A : Type) :=
  | Returned (a : A)
  | Thrown.
Arguments Returned {A} a.
Arguments Thrown {A}.

Definition M (A : Type) : Type := Service -> Res A * Service.

Definition ret {A} (a : A) : M A := fun s => (Returned a, s).

Definition throw {A} : M A := fun s => (Thrown, s).

Definition bind {A B} (m : M A) (k : A -> M B) : M B :=
  fun s =>
    match m s with
    | (Returned a, s') => k a s'
    | (Thrown, s') => (Thrown, s')
    end.

(** [try { body } catch (error) { handler }] *)
Definition try_catch {A} (body handler : M A) : M A :=
  fun s =>
    match body s with
    | (Returned a, s') => (Returned a, s')
    | (Thrown, s') => handler s'
    end.

Notation "'let!' x ':=' m 'in' k" := (bind m (fun x => k))
  (at level 10, x name, m at level 100, k at level 200).
Notation "m ';;' k" := (bind m (fun _ => k))
  (at level 100, k at level 200, right associativity).

Definition get : M Service := fun s => (Returned s, s).
Definition modify (f : Service -> Service) : M unit := fun s => (Returned tt, f s).

(** Runs a computation as a whole event: an exception that reaches the top
    is dropped, the mutations stay. *)
Definition exec {A} (m : M A) (s : Service) : Service := snd (m s).
Definition result {A} (m : M A) (s : Service) : Res A := fst (m s).

Definition when_msg (m : option Message) (k : Message -> M unit) : M unit :=
  match m with
  | Some msg => k msg
  | None => ret tt
  end.

Definition emit (e : Effect) : M unit :=
  modify (fun s => with_trace (trace s ++ [e]) s).

(** [setTimeout(callback, delay)] *)
Definition setTimeout (cb : Callback) (delay : Z) : M unit :=
  modify (fun s => with_timers (timers s ++ [mkTimer delay cb]) s).

(** Reads through a reference; a dangling reference is a [TypeError]. *)
Definition deref (r : Ref) : M PlayerState :=
  fun s =>
    match objects s !! r with
    | Some p => (Returned p, s)
    | None => (Thrown, s)
    end.

(** In-place update of the object behind a reference. *)
Definition update (r : Ref) (f : PlayerState -> PlayerState) : M unit :=
  modify (fun s => with_objects (alter f r (objects s)) s).

Definition closure (a : Activation) : M Playback :=
  fun s =>
    match closures s !! a with
    | Some c => (Returned c, s)
    | None => (Thrown, s)
    end.

Definition set_isLoadingTrack (a : Activation) (b : bool) : M unit :=
  modify (fun s => with_closures (alter (with_isLoadingTrack b) a (closures s)) s).

Definition fresh : M nat :=
  fun s => (Returned (nextHandle s), with_nextHandle (S (nextHandle s)) s).

(** ** Strings *)

(** [String.prototype.replace] with a string pattern: the first occurrence
    only.  The replacements used by the service contain no [$]. *)
Fixpoint replace (pattern replacement s : string) : string :=
  if String.prefix pattern s then
    replacement +:+ String.substring (String.length pattern)
                      (String.length s - String.length pattern) s
  else
    match s with
    | EmptyString => EmptyString
    | String c s' => String c (replace pattern replacement s')
    end.

(** Truthiness of a string and of a number. *)
Definition truthy_string (s : string) : bool :=
  match s with EmptyString => false | _ => true end.

Definition truthy_number (z : Z) : bool := negb (z =? 0)%Z.

(** The object literal [currentTrackAsYandexTrack], written out twice in the
    source (in [handlePrevious] and in [playTrack]) with the same text. *)
Definition currentTrackAsYandexTrack (t : ITrackInfo) : IYandexTrack :=
  mkYandexTrack (ti_id t) (ti_title t)
    [mkArtist (ti_artist t)]
    [mkAlbum (ti_album t)]
    (match ti_coverUrl t with
     | Some url =>
         let u := replace "400x400" "%%" (replace "https://" EmptyString url) in
         if truthy_string u then u else EmptyString
     | None => EmptyString
     end).

Definition MIN_PLAY_TIME : Z := 10000.
Definition MAX_RETRY_COUNT : Z := 3.

(** ** The outside world *)

(** Outcome of an awaited promise. *)
Inductive Awaited (A : Type) :=
  | Resolved (a : A)
  | Rejected.
Arguments Resolved {A} a.
Arguments Rejected {A}.

(** What the outside world answers during one event.  A handler makes each
    of these calls at most once. *)
Record Env := mkEnv {
  env_now : Z;                                    (* Date.now() in the Idle listener *)
  env_feedback : Awaited bool;                    (* sendTrackStartedFeedback *)
  env_streamUrl : Awaited (option string);        (* getStreamUrl *)
  env_controlsEdit : Awaited unit;                (* embedMessage.edit({ components: [row] }) *)
  env_startTime : Z;                              (* Date.now() in playTrack *)
  env_stationTracks : Awaited (option (list IYandexTrack)); (* getStationTracks *)
  env_like : Awaited bool;                        (* likeTrack *)
  env_connection : VoiceConnection;               (* joinVoiceChannel *)
  env_ready : bool;                               (* entersState(connection, Ready, 5_000) *)
  env_send : Awaited bool;                        (* interaction.channel.send(...), resolving to
                                                     a message with this [editable] *)
  env_stoppedEdit : Awaited unit                  (* embedMessage.edit({ embeds: [stoppedEmbed],
                                                     components: [] }) in handleStop *)
}.

(** [await call], the call being recorded in the trace. *)
Definition await {A} (call : Effect) (answer : Awaited A) : M A :=
  emit call ;;
  match answer with
  | Resolved a => ret a
  | Rejected => throw
  end.

(** [embedMessage?.guild?.id] *)
Definition guildIdOf (m : option Message) : option string :=
  match m with
  | Some msg => msg_guild msg
  | None => None
  end.

(** [if (guildId)]: present and not the empty string. *)
Definition truthy_guild (g : option string) : option string :=
  match g with
  | Some i => if truthy_string i then Some i else None
  | None => None
  end.

(** [Map.prototype.get] with a possibly undefined key. *)
Definition get_state (g : option string) (s : Service) : option Ref :=
  match g with
  | Some i => playerStates s !! i
  | None => None
  end.

(** [if (!streamUrl)] *)
Definition usable (url : option string) : option string :=
  match url with
  | Some u => if truthy_string u then Some u else None
  | None => None
  end.

Definition createAudioResource (streamUrl : string) : AudioResource :=
  mkResource streamUrl.

(** Lines 614-619 of playTrack: the history keeps at most 10 tracks,
    [shift] drops the oldest one before the [push]. *)
Definition pushPreviousTrack (t : IYandexTrack) (h : list IYandexTrack) : list IYandexTrack :=
  (if 10 <=? length h then drop 1 h else h) ++ [t].

Definition updateEmbed (message : option Message) (trackInfo : ITrackInfo) : M unit :=
  when_msg message (fun m => emit (EditEmbed m (NowPlayingEmbed trackInfo))).

Definition updateEmbedWithError (message : option Message) (errorMessage : Embed) : M unit :=
  when_msg message (fun m => emit (EditEmbed m errorMessage)).

Definition reply (r : Reply) : M unit := emit (InteractionReply r).

(** [playerState.embedMessage && playerState.embedMessage.editable] *)
Definition editableEmbed (playerState : PlayerState) : option Message :=
  match embedMessage playerState with
  | Some m => if msg_editable m then Some m else None
  | None => None
  end.

(** ** playTrack *)

Definition playTrack (player : AudioPlayer) (trackInfo : ITrackInfo)
    (accessToken stationId : string) (embedMessage : option Message)
    (env : Env) : M bool :=
  try_catch
    (when_msg embedMessage (fun m => emit (EditEmbed m (LoadingEmbed trackInfo))) ;;
     let! _ := await (TrackStartedFeedback accessToken stationId (ti_id trackInfo))
                     (env_feedback env) in
     let! streamUrl := await (StreamUrlRequest accessToken (ti_id trackInfo))
                             (env_streamUrl env) in
     match usable streamUrl with
     | None =>
         when_msg embedMessage
           (fun m => updateEmbedWithError (Some m) (StreamUrlErrorEmbed trackInfo)) ;;
         ret false
     | Some url =>
         let resource := createAudioResource url in
         let guildId := guildIdOf embedMessage in
         match truthy_guild guildId with
         | Some g =>
             modify (fun s => with_currentResources (<[g := resource]> (currentResources s)) s) ;;
             let! s := get in
             match playerStates s !! g with
             | Some r =>
                 let! playerState := deref r in
                 match currentTrack playerState with
                 | Some c =>
                     update r (fun p =>
                       with_previousTracks
                         (pushPreviousTrack (currentTrackAsYandexTrack c) (previousTracks p)) p)
                 | None => ret tt
                 end ;;
                 update r (with_currentTrack (Some trackInfo)) ;;
                 update r (with_isPlaying true) ;;
                 match editableEmbed playerState with
                 | Some m => await (EditControls m true) (env_controlsEdit env)
                 | None => ret tt
                 end
             | None => ret tt
             end
         | None => ret tt
         end ;;
         emit (TransportPlay player resource) ;;
         updateEmbed embedMessage trackInfo ;;
         let! s := get in
         match get_state guildId s with
         | Some r =>
             update r (with_trackStartTime (Some (env_startTime env))) ;;
             update r (with_lastTrackId
                         (if truthy_string (ti_id trackInfo)
                          then Some (ti_id trackInfo) else None)) ;;
             update r (with_retryCount 0)
         | None => ret tt
         end ;;
         ret true
     end)
    (when_msg embedMessage
       (fun m => updateEmbedWithError (Some m) (PlaybackErrorEmbed trackInfo)) ;;
     ret false).

Section Playback.

(** [YandexMusicService.trackToTrackInfo]; its body is in
    yandex-music.service, the player only calls it. *)
Variable trackToTrackInfo : IYandexTrack -> ITrackInfo.

(** ** setupInfinitePlayback *)

Definition loadMoreTracks (c : Playback) (env : Env) : M bool :=
  try_catch
    (let! newTracks := await (StationTracksRequest (pb_accessToken c) (pb_stationId c))
                             (env_stationTracks env) in
     let! s := get in
     match playerStates s !! pb_guildId c, newTracks with
     | Some r, Some (t :: l) =>
         update r (fun p => with_trackQueue (trackQueue p ++ t :: l) p) ;;
         ret true
     | _, _ => ret false
     end)
    (ret false).

(** [playTime < MIN_PLAY_TIME && playerState.currentTrack &&
     playerState.retryCount < MAX_RETRY_COUNT] *)
Definition playTime (playerState : PlayerState) (currentTime : Z) : Z :=
  match trackStartTime playerState with
  | Some t => if truthy_number t then currentTime - t else 0
  | None => 0
  end%Z.

Definition interrupted (playerState : PlayerState) (currentTime : Z) : bool :=
  (playTime playerState currentTime <? MIN_PLAY_TIME)%Z
  && bool_decide (is_Some (currentTrack playerState))
  && (retryCount playerState <? MAX_RETRY_COUNT)%Z.

(** [playerState.trackQueue.shift()] *)
Definition shift (r : Ref) : M (option IYandexTrack) :=
  let! p := deref r in
  match trackQueue p with
  | t :: q => update r (with_trackQueue q) ;; ret (Some t)
  | [] => ret None
  end.

(** [playerState.previousTracks.pop()] *)
Definition pop (r : Ref) : M (option IYandexTrack) :=
  let! p := deref r in
  match last (previousTracks p) with
  | Some t =>
      update r (fun p => with_previousTracks (removelast (previousTracks p)) p) ;;
      ret (Some t)
  | None => ret None
  end.

(** The listener of [AudioPlayerStatus.Idle] installed by activation [a]. *)
Definition onIdle (a : Activation) (env : Env) : M unit :=
  let! c := closure a in
  let! s := get in
  match playerStates s !! pb_guildId c with
  | None => ret tt
  | Some r =>
      if isLoadingTrack c then ret tt
      else
        let! playerState := deref r in
        if interrupted playerState (env_now env) then
          match currentTrack playerState with
          | Some t =>
              when_msg (pb_embedMessage c) (fun m => emit (EditEmbed m (ReconnectEmbed t)))
          | None => ret tt
          end ;;
          update r (fun p => with_retryCount (retryCount p + 1)%Z p) ;;
          setTimeout (RetryAfterIdle a r) 3000
        else if 0 <? length (trackQueue playerState) then
          set_isLoadingTrack a true ;;
          try_catch
            (let! nextTrack := shift r in
             match nextTrack with
             | Some nextTrack =>
                 let nextTrackInfo := trackToTrackInfo nextTrack in
                 let! success := playTrack (pb_player c) nextTrackInfo (pb_accessToken c)
                                   (pb_stationId c) (pb_embedMessage c) env in
                 if success : bool then set_isLoadingTrack a false
                 else setTimeout (EmitIdleAgain a) 3000
             | None => set_isLoadingTrack a false
             end)
            (set_isLoadingTrack a false)
        else
          set_isLoadingTrack a true ;;
          try_catch
            (let! loaded := loadMoreTracks c env in
             if loaded : bool then setTimeout (EmitIdleAgain a) 1000
             else
               when_msg (pb_embedMessage c) (fun m => emit (EditEmbed m FinishedEmbed)) ;;
               set_isLoadingTrack a false)
            (set_isLoadingTrack a false)
  end.

(** [player.emit(AudioPlayerStatus.Idle)]: runs the listener installed on the
    player, if any. *)
Definition emitIdle (player : AudioPlayer) (env : Env) : M unit :=
  let! s := get in
  match listeners s !! player with
  | Some a => onIdle a env
  | None => ret tt
  end.

(** The listener of ['error'] installed by activation [a]. *)
Definition onError (a : Activation) : M unit :=
  let! c := closure a in
  let! s := get in
  match playerStates s !! pb_guildId c with
  | None => ret tt
  | Some r =>
      let! playerState := deref r in
      match currentTrack playerState with
      | None => ret tt
      | Some t =>
          when_msg (pb_embedMessage c) (fun m => emit (EditEmbed m (ProblemEmbed t))) ;;
          setTimeout (RetryAfterError a r) 3000
      end
  end.

Definition emitError (player : AudioPlayer) : M unit :=
  let! s := get in
  match listeners s !! player with
  | Some a => onError a
  | None => ret tt
  end.

(** The bodies of the three [setTimeout] callbacks.  [playTrack] is called
    without [await]; it never rejects. *)
Definition runCallback (cb : Callback) (env : Env) : M unit :=
  match cb with
  | RetryAfterError a r =>
      let! c := closure a in
      let! playerState := deref r in
      match currentTrack playerState with
      | Some t =>
          if (retryCount playerState <? MAX_RETRY_COUNT)%Z then
            update r (fun p => with_retryCount (retryCount p + 1)%Z p) ;;
            let! _ := playTrack (pb_player c) t (pb_accessToken c) (pb_stationId c)
                        (pb_embedMessage c) env in
            ret tt
          else
            set_isLoadingTrack a false ;;
            emitIdle (pb_player c) env
      | None =>
          set_isLoadingTrack a false ;;
          emitIdle (pb_player c) env
      end
  | RetryAfterIdle a r =>
      let! c := closure a in
      let! playerState := deref r in
      match currentTrack playerState with
      | Some t =>
          let! _ := playTrack (pb_player c) t (pb_accessToken c) (pb_stationId c)
                      (pb_embedMessage c) env in
          ret tt
      | None => ret tt
      end
  | EmitIdleAgain a =>
      let! c := closure a in
      set_isLoadingTrack a false ;;
      emitIdle (pb_player c) env
  end.

Definition setupInfinitePlayback (player : AudioPlayer) (accessToken stationId : string)
    (embedMessage : option Message) (initialTracks : list IYandexTrack) : M unit :=
  match truthy_guild (guildIdOf embedMessage) with
  | None => ret tt
  | Some guildId =>
      let! s := get in
      match playerStates s !! guildId with
      | Some r => update r (with_trackQueue initialTracks)
      | None => ret tt
      end ;;
      let! a := fresh in
      modify (fun s =>
        with_closures
          (<[a := mkPlayback player accessToken stationId embedMessage guildId false]>
             (closures s)) s) ;;
      modify (fun s => with_listeners (<[player := a]> (listeners s)) s)
  end.

(** ** createPlayer *)

Record PlayerOptions := mkOptions {
  opt_guildId : string;          (* interaction.guild!.id *)
  opt_channelSends : bool;       (* interaction.channel && 'send' in interaction.channel *)
  opt_accessToken : string;
  opt_userId : string;
  opt_stationId : string
}.

Definition initialState (options : PlayerOptions) (embedMessage : option Message) : PlayerState :=
  mkPlayerState false None [] [] (opt_accessToken options) (opt_userId options)
    (opt_stationId options) embedMessage None 0 None.

Definition forget (guildId : string) : M unit :=
  modify (fun s => with_players (delete guildId (players s)) s) ;;
  modify (fun s => with_connections (delete guildId (connections s)) s) ;;
  modify (fun s => with_playerStates (delete guildId (playerStates s)) s) ;;
  modify (fun s => with_currentResources (delete guildId (currentResources s)) s).

Definition createPlayer (options : PlayerOptions) (env : Env)
    : M (AudioPlayer * VoiceConnection * option Message) :=
  let guildId := opt_guildId options in
  let connection := env_connection env in
  emit (Join guildId connection) ;;
  let! player := fresh in
  emit (Subscribe connection player) ;;
  (if env_ready env then ret tt
   else emit (ConnectionDestroy connection) ;; throw) ;;
  let! embedMessage :=
    (if opt_channelSends options then
       let! editable := await (SendEmbed guildId InitialEmbed) (env_send env) in
       let! i := fresh in
       ret (Some (mkMessage i (Some guildId) editable))
     else ret None) in
  modify (fun s => with_players (<[guildId := player]> (players s)) s) ;;
  modify (fun s => with_connections (<[guildId := connection]> (connections s)) s) ;;
  let! r := fresh in
  modify (fun s => with_objects (<[r := initialState options embedMessage]> (objects s)) s) ;;
  modify (fun s => with_playerStates (<[guildId := r]> (playerStates s)) s) ;;
  ret (player, connection, embedMessage).

(** The listener of [VoiceConnectionStatus.Disconnected], in the case where
    the connection does not start to reconnect within 5 s. *)
Definition onDisconnected (guildId : string) (connection : VoiceConnection) : M unit :=
  emit (ConnectionDestroy connection) ;;
  forget guildId.

(** ** Button handlers *)

Inductive CustomId := like | previous | pause | play | stop | next.

Definition handleLike (guildId : string) (env : Env) : M unit :=
  let! s := get in
  match playerStates s !! guildId with
  | None => reply ReplyNoCurrentTrack
  | Some r =>
      let! playerState := deref r in
      match currentTrack playerState with
      | None => reply ReplyNoCurrentTrack
      | Some t =>
          try_catch
            (let! success := await (LikeRequest (accessToken playerState)
                                      (userId playerState) (ti_id t)) (env_like env) in
             if success : bool then reply (ReplyLiked t) else reply ReplyLikeFailed)
            (reply ReplyLikeError)
      end
  end.

Definition handlePrevious (guildId : string) (env : Env) : M unit :=
  let! s := get in
  match playerStates s !! guildId, players s !! guildId with
  | Some r, Some player =>
      let! playerState := deref r in
      if length (previousTracks playerState) =? 0 then reply ReplyNoPreviousTracks
      else
        try_catch
          (let! previousTrack := pop r in
           match previousTrack with
           | Some previousTrack =>
               match currentTrack playerState with
               | Some c =>
                   update r (fun p =>
                     with_trackQueue (currentTrackAsYandexTrack c :: trackQueue p) p)
               | None => ret tt
               end ;;
               let trackInfo := trackToTrackInfo previousTrack in
               let! _ := playTrack player trackInfo (accessToken playerState)
                           (stationId playerState) (embedMessage playerState) env in
               reply ReplyPrevious
           | None => ret tt
           end)
          (reply ReplyPreviousError)
  | _, _ => reply ReplyNotFound
  end.

Definition handlePause (guildId : string) (env : Env) : M unit :=
  let! s := get in
  match players s !! guildId, playerStates s !! guildId with
  | Some player, Some r =>
      let! playerState := deref r in
      try_catch
        (emit (TransportPause player) ;;
         update r (with_isPlaying false) ;;
         match editableEmbed playerState with
         | Some m => await (EditControls m false) (env_controlsEdit env)
         | None => ret tt
         end ;;
         reply ReplyPaused)
        (reply ReplyPauseError)
  | _, _ => reply ReplyNotFound
  end.

Definition handlePlay (guildId : string) (env : Env) : M unit :=
  let! s := get in
  match players s !! guildId, playerStates s !! guildId with
  | Some player, Some r =>
      let! playerState := deref r in
      try_catch
        (emit (TransportUnpause player) ;;
         update r (with_isPlaying true) ;;
         match editableEmbed playerState with
         | Some m => await (EditControls m true) (env_controlsEdit env)
         | None => ret tt
         end ;;
         reply ReplyResumed)
        (reply ReplyResumeError)
  | _, _ => reply ReplyNotFound
  end.

Definition handleStop (guildId : string) (env : Env) : M unit :=
  let! s := get in
  match players s !! guildId, connections s !! guildId, playerStates s !! guildId with
  | Some player, Some connection, Some r =>
      let! playerState := deref r in
      try_catch
        (emit (TransportStop player) ;;
         emit (ConnectionDestroy connection) ;;
         forget guildId ;;
         match editableEmbed playerState with
         | Some m => await (EditEmbed m StoppedEmbed) (env_stoppedEdit env)
         | None => ret tt
         end ;;
         reply ReplyStopped)
        (reply ReplyStopError)
  | _, _, _ => reply ReplyNotFound
  end.

(** [player.emit(AudioPlayerStatus.Idle)] starts the async Idle listener and
    returns when the listener first suspends.  Here, where a handler runs to
    completion, the listener finishes before the reply is recorded; the two
    orders differ in the branches of the listener that await (advance and
    refill), not in the retry branch, which has no [await].  The listener
    being async, nothing it throws reaches the [catch] of handleNext. *)
Definition handleNext (guildId : string) (env : Env) : M unit :=
  let! s := get in
  match players s !! guildId, playerStates s !! guildId with
  | Some player, Some _ =>
      emitIdle player env ;;
      reply ReplyNext
  | _, _ => reply ReplyNotFound
  end.

(** The ['collect'] listener of [setupButtonHandler]. *)
Definition onCollect (guildId : string) (customId : CustomId) (env : Env) : M unit :=
  let! s := get in
  match players s !! guildId, playerStates s !! guildId with
  | Some _, Some _ =>
      match customId with
      | like => handleLike guildId env
      | previous => handlePrevious guildId env
      | pause => handlePause guildId env
      | play => handlePlay guildId env
      | stop => handleStop guildId env
      | next => handleNext guildId env
      end
  | _, _ => reply ReplyNotFound
  end.

(** ** Events *)

(** What can happen to the service: calls of its public methods, button
    presses, events of a player or of a connection, and a pending timer
    coming due. *)
Inductive Event :=
  | CreatePlayer (options : PlayerOptions)
  | SetupInfinitePlayback (player : AudioPlayer) (accessToken stationId : string)
      (embedMessage : option Message) (initialTracks : list IYandexTrack)
  | PlayTrack (player : AudioPlayer) (trackInfo : ITrackInfo)
      (accessToken stationId : string) (embedMessage : option Message)
  | Collect (guildId : string) (customId : CustomId)
  | PlayerIdle (player : AudioPlayer)
  | PlayerError (player : AudioPlayer)
  | Disconnected (guildId : string) (connection : VoiceConnection)
  | TimerFires (index : nat).

Definition fireTimer (index : nat) (env : Env) : M unit :=
  let! s := get in
  match timers s !! index with
  | Some tm =>
      modify (fun s => with_timers (delete index (timers s)) s) ;;
      runCallback (tm_callback tm) env
  | None => ret tt
  end.

Definition handle (ev : Event) (env : Env) : M unit :=
  match ev with
  | CreatePlayer options => let! _ := createPlayer options env in ret tt
  | SetupInfinitePlayback player token station embedMessage initialTracks =>
      setupInfinitePlayback player token station embedMessage initialTracks
  | PlayTrack player trackInfo token station embedMessage =>
      let! _ := playTrack player trackInfo token station embedMessage env in ret tt
  | Collect guildId customId => onCollect guildId customId env
  | PlayerIdle player => emitIdle player env
  | PlayerError player => emitError player
  | Disconnected guildId connection => onDisconnected guildId connection
  | TimerFires index => fireTimer index env
  end.

Definition step (s : Service) (e : Event * Env) : Service :=
  exec (handle (fst e) (snd e)) s.

Definition run (es : list (Event * Env)) (s : Service) : Service :=
  foldl step s es.

Inductive Reachable : Service -> Prop :=
  | reach_start : Reachable emptyService
  | reach_step s ev env : Reachable s -> Reachable (step s (ev, env)).

End Playback.

(** * Statements about the service *)

(** ** Vocabulary of the statements *)

(** The state of a session after a track was started on it: the track that
    was current goes to the history, the new track becomes current. *)
Definition remembered (p : PlayerState) : PlayerState :=
  match currentTrack p with
  | Some c =>
      with_previousTracks
        (pushPreviousTrack (currentTrackAsYandexTrack c) (previousTracks p)) p
  | None => p
  end.

Definition started (trackInfo : ITrackInfo) (startTime : Z) (p : PlayerState) : PlayerState :=
  with_retryCount 0
    (with_lastTrackId
       (if truthy_string (ti_id trackInfo) then Some (ti_id trackInfo) else None)
       (with_trackStartTime (Some startTime)
          (with_isPlaying true
             (with_currentTrack (Some trackInfo) (remembered p))))).

Definition controlsEdited (p : PlayerState) : list Effect :=
  match editableEmbed p with
  | Some m => [EditControls m true]
  | None => []
  end.

(** An edit of the embed, when there is a message to edit. *)
Definition notice (embedMessage : option Message) (e : Embed) : list Effect :=
  match embedMessage with
  | Some m => [EditEmbed m e]
  | None => []
  end.

(** The effects that hand a track to the transport. *)
Definition isTransportPlay (e : Effect) : bool :=
  match e with
  | TransportPlay _ _ => true
  | _ => false
  end.

(** Every session in the registry has its object, and no history holds
    more than ten tracks. *)
Definition registered (s : Service) : Prop :=
  forall g r, playerStates s !! g = Some r -> is_Some (objects s !! r).

Definition bounded (p : PlayerState) : Prop := length (previousTracks p) <= 10.

Definition histories_bounded (s : Service) : Prop :=
  forall r p, objects s !! r = Some p -> bounded p.

Definition sound (s : Service) : Prop := registered s /\ histories_bounded s.

(** A computation keeps a property of the service, whether it returns or
    throws. *)
Definition keeps (I : Service -> Prop) {A} (m : M A) : Prop :=
  forall s, I s -> I (exec m s).

(** The session of [guildId] is backed by the message [m]: the closure of an
    activation set up for the message computes this guild id. *)
Definition plays_for (c : Playback) (m : Message) : Prop :=
  pb_embedMessage c = Some m /\
  msg_guild m = Some (pb_guildId c) /\
  truthy_string (pb_guildId c) = true.

(** The outside world lets a track start: the feedback call resolves, the
    stream url is there, the buttons can be redrawn. *)
Definition lets_start (env : Env) (url : string) : Prop :=
  (exists b, env_feedback env = Resolved b) /\
  env_streamUrl env = Resolved (Some url) /\
  truthy_string url = true /\
  env_controlsEdit env = Resolved tt.

(** The same answers of the outside world, with another outcome of the
    feedback call. *)
Definition with_feedback (a : Awaited bool) (env : Env) : Env :=
  mkEnv (env_now env) a (env_streamUrl env) (env_controlsEdit env)
    (env_startTime env) (env_stationTracks env) (env_like env)
    (env_connection env) (env_ready env) (env_send env) (env_stoppedEdit env).

(** The station has nothing more to give: the request fails, or answers
    with nothing or with an empty list. *)
Definition gives_nothing (a : Awaited (option (list IYandexTrack))) : Prop :=
  a = Rejected \/ a = Resolved None \/ a = Resolved (Some []).

(** What "like" answers, by the outcome of [likeTrack]. *)
Definition likeReply (t : ITrackInfo) (a : Awaited bool) : Reply :=
  match a with
  | Resolved true => ReplyLiked t
  | Resolved false => ReplyLikeFailed
  | Rejected => ReplyLikeError
  end.

(** What a button answers when it has redrawn the message: the edit is
    awaited inside the [try] of the handler, so a rejected edit is answered
    with the error text of the [catch]. *)
Definition redrawn (p : PlayerState) (edit : Awaited unit) (done failed : Reply) : Reply :=
  match editableEmbed p, edit with
  | Some _, Rejected => failed
  | _, _ => done
  end.

Definition pauseReply (p : PlayerState) (env : Env) : Reply :=
  redrawn p (env_controlsEdit env) ReplyPaused ReplyPauseError.

Definition playReply (p : PlayerState) (env : Env) : Reply :=
  redrawn p (env_controlsEdit env) ReplyResumed ReplyResumeError.

Definition stopReply (p : PlayerState) (env : Env) : Reply :=
  redrawn p (env_stoppedEdit env) ReplyStopped ReplyStopError.

(** The activation whose listener set the timer. *)
Definition activationOf (cb : Callback) : Activation :=
  match cb with
  | RetryAfterError a _ => a
  | RetryAfterIdle a _ => a
  | EmitIdleAgain a => a
  end.

(** The session object [p'] has the current track, the queue and the
    history of [p]. *)
Definition same_tracks (p p' : PlayerState) : Prop :=
  currentTrack p' = currentTrack p /\
  trackQueue p' = trackQueue p /\
  previousTracks p' = previousTracks p.

(** No session object counts more retries than allowed. *)
Definition retries_bounded (s : Service) : Prop :=
  forall r p, objects s !! r = Some p -> (0 <= retryCount p <= MAX_RETRY_COUNT)%Z.

(** The maps of players, connections and sessions have the same keys. *)
Definition registry_aligned (s : Service) : Prop :=
  forall g,
    (is_Some (players s !! g) <-> is_Some (playerStates s !! g)) /\
    (is_Some (connections s !! g) <-> is_Some (playerStates s !! g)).

(** Every activation was set up for a message of its own guild. *)
Definition activations_match (s : Service) : Prop :=
  forall a c, closures s !! a = Some c -> exists m, plays_for c m.

(** What an event of the activation [a], set up for the message [m] of guild
    [g] whose session object is [r], may change between [s] and [s']: that
    object, the current resource of the guild, the closure of the activation
    (which stays one for [m] and [g]), the timers and the trace. *)
Definition touches_only (g : string) (r : Ref) (a : Activation) (m : Message)
    (s s' : Service) : Prop :=
  playerStates s' = playerStates s /\
  players s' = players s /\
  connections s' = connections s /\
  listeners s' = listeners s /\
  (forall r', r' <> r -> objects s' !! r' = objects s !! r') /\
  (forall g', g' <> g -> currentResources s' !! g' = currentResources s !! g') /\
  (forall a', a' <> a -> closures s' !! a' = closures s !! a') /\
  (exists c', closures s' !! a = Some c' /\ plays_for c' m /\ pb_guildId c' = g).

(** Handles are handed out in increasing order: every session object has a
    handle below the next one. *)
Definition handles_fresh (s : Service) : Prop :=
  forall r, is_Some (objects s !! r) -> r < nextHandle s.

(** ** A session used in the examples *)

Module Sample.

Definition trackToTrackInfo (t : IYandexTrack) : ITrackInfo :=
  mkTrackInfo (yt_id t) (yt_title t)
    (match yt_artists t with a :: _ => artist_name a | [] => EmptyString end)
    (match yt_albums t with a :: _ => album_title a | [] => EmptyString end)
    (if truthy_string (yt_coverUri t)
     then Some ("https://" +:+ replace "%%" "400x400" (yt_coverUri t))
     else None).

Definition options : PlayerOptions :=
  mkOptions "guild-1" true "token" "user" "station".

Definition A : IYandexTrack := mkYandexTrack "A" "a" [mkArtist "x"] [mkAlbum "y"] EmptyString.
Definition B : IYandexTrack := mkYandexTrack "B" "b" [mkArtist "x"] [mkAlbum "y"] EmptyString.
Definition C : ITrackInfo :=
  mkTrackInfo "C" "c" "x" "y" (Some "https://covers/400x400").

(** The world at time [now]: every call resolves, the stream url is
    ["url"], the station has no more tracks. *)
Definition fine (now : Z) : Env :=
  mkEnv now (Resolved true) (Resolved (Some "url")) (Resolved tt) now
    (Resolved None) (Resolved true) 7 true (Resolved true) (Resolved tt).

(** The same, but no stream url can be had. *)
Definition noUrl (now : Z) : Env :=
  mkEnv now (Resolved true) (Resolved None) (Resolved tt) now
    (Resolved None) (Resolved true) 7 true (Resolved true) (Resolved tt).

(** The message [createPlayer] sends in the first scenario, the player
    it creates, the session object and the activation set up next. *)
Definition message : Message := mkMessage 1 (Some "guild-1") true.
Definition player : AudioPlayer := 0.
Definition session : Ref := 2.
Definition activation : Activation := 3.

Definition created : Service :=
  run trackToTrackInfo [(CreatePlayer options, fine 0)] emptyService.

(** Track C is playing since time 1000, A and B are queued. *)
Definition playing : Service :=
  run trackToTrackInfo
    [(PlayTrack player C "token" "station" (Some message), fine 1000);
     (SetupInfinitePlayback player "token" "station" (Some message) [A; B], fine 1000)]
    created.

(** The closure of that activation and the session object at that
    point. *)
Definition setUp : Playback :=
  mkPlayback player "token" "station" (Some message) "guild-1" false.

Definition playingC : PlayerState :=
  mkPlayerState true (Some C) [] [A; B] "token" "user" "station" (Some message)
    (Some 1000%Z) 0 (Some "C").

(** C was interrupted after 100 ms; the retry timer is pending. *)
Definition interruptedOnce : Service :=
  run trackToTrackInfo [(PlayerIdle player, fine 1100)] playing.

(** C was interrupted three times and could not be restarted: each retry
    found no stream url. *)
Definition exhausted : Service :=
  run trackToTrackInfo
    [(PlayerIdle player, fine 1100); (TimerFires 0, noUrl 4100);
     (PlayerIdle player, fine 4200); (TimerFires 0, noUrl 7200);
     (PlayerIdle player, fine 7300); (TimerFires 0, noUrl 10300)]
    playing.

(** C ended after 19 s, A could not be started: the listener waits
    3000 ms with [isLoadingTrack] set. *)
Definition loading : Service :=
  run trackToTrackInfo [(PlayerIdle player, noUrl 20000)] playing.

(** C ended after 19 s and A was started. *)
Definition advanced : Service :=
  run trackToTrackInfo [(PlayerIdle player, fine 20000)] playing.

(** "stop" pressed while the retry of C is pending. *)
Definition stopped : Service :=
  run trackToTrackInfo [(Collect "guild-1" stop, fine 1200)] interruptedOnce.

(** The session object and the closure in those states. *)
Definition interruptedC : PlayerState := with_retryCount 1 playingC.
Definition exhaustedC : PlayerState := with_retryCount 3 playingC.
Definition waiting : Playback := with_isLoadingTrack true setUp.
Definition playingA : PlayerState :=
  started (trackToTrackInfo A) 20000 (with_trackQueue [B] playingC).


(** The world at time [now] when no message can be sent. *)
Definition noSend (now : Z) : Env :=
  mkEnv now (Resolved true) (Resolved (Some "url")) (Resolved tt) now
    (Resolved None) (Resolved true) 7 true Rejected (Resolved tt).

(** The world at time [now] when the buttons cannot be redrawn. *)
Definition noControls (now : Z) : Env :=
  mkEnv now (Resolved true) (Resolved (Some "url")) Rejected now
    (Resolved None) (Resolved true) 7 true (Resolved true) (Resolved tt).

(** Track C is playing since time 1000 and nothing is queued. *)
Definition lastTrack : Service :=
  run trackToTrackInfo
    [(PlayTrack player C "token" "station" (Some message), fine 1000);
     (SetupInfinitePlayback player "token" "station" (Some message) [], fine 1000)]
    created.

Definition lastC : PlayerState := with_trackQueue [] playingC.

(** Ten tracks were queued behind C and each of them was started when the
    one before it had played for 20 s: the history holds C and the first
    nine of them, the tenth is playing. *)
Definition fullHistory : Service :=
  run trackToTrackInfo
    [(PlayTrack player C "token" "station" (Some message), fine 1000);
     (SetupInfinitePlayback player "token" "station" (Some message)
        [A; B; A; B; A; B; A; B; A; B], fine 1000);
     (PlayerIdle player, fine 21000); (PlayerIdle player, fine 41000);
     (PlayerIdle player, fine 61000); (PlayerIdle player, fine 81000);
     (PlayerIdle player, fine 101000); (PlayerIdle player, fine 121000);
     (PlayerIdle player, fine 141000); (PlayerIdle player, fine 161000);
     (PlayerIdle player, fine 181000); (PlayerIdle player, fine 201000)]
    created.

Definition fullP : PlayerState :=
  mkPlayerState true (Some (trackToTrackInfo B))
    [currentTrackAsYandexTrack C; A; B; A; B; A; B; A; B; A] []
    "token" "user" "station" (Some message) (Some 201000%Z) 0 (Some "B").

End Sample.

Section Properties.

Variable trackToTrackInfo : IYandexTrack -> ITrackInfo.

(** ** Evaluating computations *)

Arguments truthy_string : simpl never.
Arguments truthy_number : simpl never.
Arguments pushPreviousTrack : simpl never.
Arguments currentTrackAsYandexTrack : simpl never.
Arguments editableEmbed : simpl never.
Arguments playTime : simpl never.
Arguments interrupted : simpl never.
Arguments replace : simpl never.
Arguments playTrack : simpl never.

Lemma service_ext (a b : Service) :
  players a = players b ->
  connections a = connections b ->
  playerStates a = playerStates b ->
  currentResources a = currentResources b ->
  objects a = objects b ->
  closures a = closures b ->
  listeners a = listeners b ->
  timers a = timers b ->
  trace a = trace b ->
  nextHandle a = nextHandle b ->
  a = b.
Proof. destruct a, b; cbn; intros; subst; reflexivity. Qed.

(** Two outcomes are the same when they return the same and agree on every
    field of the service. *)
Ltac same_service :=
  unfold emit; unfold modify, ret; cbn;
  f_equal; apply service_ext; cbn; rewrite <- ?app_assoc; try reflexivity.

Ltac unfold_monad :=
  unfold try_catch, bind, await, when_msg, emit, modify, get, ret, updateEmbed,
    deref, update, closure, reply, setTimeout, set_isLoadingTrack,
    updateEmbedWithError, throw, fresh.

Lemma alter_found {K} `{Countable K} {A} (f : A -> A) (m : gmap K A) i x :
  m !! i = Some x -> alter f i m = <[i := f x]> m.
Proof.
  intros Hx. apply map_eq. intros j.
  destruct (decide (i = j)) as [->|Hne].
  - now rewrite lookup_alter_eq, lookup_insert_eq, Hx.
  - now rewrite lookup_alter_ne, lookup_insert_ne.
Qed.

(** ** playTrack *)

Lemma playTrack_started player trackInfo token station m g r p env b url s :
  msg_guild m = Some g ->
  truthy_string g = true ->
  playerStates s !! g = Some r ->
  objects s !! r = Some p ->
  env_feedback env = Resolved b ->
  env_streamUrl env = Resolved (Some url) ->
  truthy_string url = true ->
  (editableEmbed p = None \/ env_controlsEdit env = Resolved tt) ->
  playTrack player trackInfo token station (Some m) env s =
    (Returned true,
     mkService (players s) (connections s) (playerStates s)
       (<[g := createAudioResource url]> (currentResources s))
       (<[r := started trackInfo (env_startTime env) p]> (objects s))
       (closures s) (listeners s) (timers s)
       (trace s ++ [EditEmbed m (LoadingEmbed trackInfo);
                    TrackStartedFeedback token station (ti_id trackInfo);
                    StreamUrlRequest token (ti_id trackInfo)]
                ++ controlsEdited p
                ++ [TransportPlay player (createAudioResource url);
                    EditEmbed m (NowPlayingEmbed trackInfo)])
       (nextHandle s)).
Proof.
  intros Hg Hgt Hr Hp Hf Hu Hut Hc.
  unfold playTrack, usable, guildIdOf, truthy_guild, get_state. unfold_monad.
  repeat (progress (cbn; rewrite ?Hf, ?Hu, ?Hut, ?Hg, ?Hgt, ?Hr, ?Hp)).
  unfold started, remembered, controlsEdited.
  destruct (currentTrack p) as [c|] eqn:Hcur;
    destruct (editableEmbed p) as [m0|] eqn:He;
    (destruct Hc as [Hc|Hc]; [try discriminate Hc|]);
    repeat (progress (cbn; rewrite ?Hc, ?Hr));
    same_service.
  all: rewrite (alter_found _ _ _ _ Hp), !alter_insert_eq; reflexivity.
Qed.

(** Without a registered session for the message the track is still handed
    to the transport; only [currentResources] is written. *)
Lemma playTrack_unregistered player trackInfo token station m g env b url s :
  msg_guild m = Some g ->
  truthy_string g = true ->
  playerStates s !! g = None ->
  env_feedback env = Resolved b ->
  env_streamUrl env = Resolved (Some url) ->
  truthy_string url = true ->
  playTrack player trackInfo token station (Some m) env s =
    (Returned true,
     mkService (players s) (connections s) (playerStates s)
       (<[g := createAudioResource url]> (currentResources s))
       (objects s) (closures s) (listeners s) (timers s)
       (trace s ++ [EditEmbed m (LoadingEmbed trackInfo);
                    TrackStartedFeedback token station (ti_id trackInfo);
                    StreamUrlRequest token (ti_id trackInfo);
                    TransportPlay player (createAudioResource url);
                    EditEmbed m (NowPlayingEmbed trackInfo)])
       (nextHandle s)).
Proof.
  intros Hg Hgt Hr Hf Hu Hut.
  unfold playTrack, usable, guildIdOf, truthy_guild, get_state. unfold_monad.
  repeat (progress (cbn; rewrite ?Hf, ?Hu, ?Hut, ?Hg, ?Hgt, ?Hr)).
  same_service.
Qed.

Lemma playTrack_no_url player trackInfo token station embedMessage env b u s :
  env_feedback env = Resolved b ->
  env_streamUrl env = Resolved u ->
  usable u = None ->
  playTrack player trackInfo token station embedMessage env s =
    (Returned false,
     with_trace
       (trace s ++ notice embedMessage (LoadingEmbed trackInfo)
                ++ [TrackStartedFeedback token station (ti_id trackInfo);
                    StreamUrlRequest token (ti_id trackInfo)]
                ++ notice embedMessage (StreamUrlErrorEmbed trackInfo)) s).
Proof.
  intros Hf Hu Hn.
  unfold playTrack. unfold_monad.
  destruct embedMessage as [m|];
    repeat (progress (cbn; rewrite ?Hf, ?Hu, ?Hn));
    same_service.
Qed.

Lemma playTrack_feedback_rejected player trackInfo token station embedMessage env s :
  env_feedback env = Rejected ->
  playTrack player trackInfo token station embedMessage env s =
    (Returned false,
     with_trace
       (trace s ++ notice embedMessage (LoadingEmbed trackInfo)
                ++ [TrackStartedFeedback token station (ti_id trackInfo)]
                ++ notice embedMessage (PlaybackErrorEmbed trackInfo)) s).
Proof.
  intros Hf.
  unfold playTrack. unfold_monad.
  destruct embedMessage as [m|];
    repeat (progress (cbn; rewrite ?Hf));
    same_service.
Qed.

(** playTrack never throws: its whole body is inside [try]. *)
Lemma playTrack_returns player trackInfo token station embedMessage env s :
  exists b, result (playTrack player trackInfo token station embedMessage env) s = Returned b.
Proof.
  unfold result, playTrack, try_catch.
  match goal with |- context [let (_, _) := ?body s in _] => destruct (body s) as [[a|] s'] end.
  - eauto.
  - cbn. unfold_monad. destruct embedMessage; cbn; eauto.
Qed.

(** C7: when getStreamUrl gives no usable url, playTrack shows the
    stream-url error on the embed message, returns [false], and leaves the
    service as it was apart from the calls it recorded: no map, no session
    object (current track, queue, history, start time, retry count, last
    track id), no timer changes, and nothing is handed to the transport. *)
Theorem playTrack_stream_url_absent
    player trackInfo token station embedMessage env b u s :
  env_feedback env = Resolved b ->
  env_streamUrl env = Resolved u ->
  usable u = None ->
  let s' := exec (playTrack player trackInfo token station embedMessage env) s in
  result (playTrack player trackInfo token station embedMessage env) s = Returned false /\
  objects s' = objects s /\
  playerStates s' = playerStates s /\
  players s' = players s /\
  connections s' = connections s /\
  currentResources s' = currentResources s /\
  closures s' = closures s /\
  timers s' = timers s /\
  (forall m, embedMessage = Some m ->
     last (trace s') = Some (EditEmbed m (StreamUrlErrorEmbed trackInfo))) /\
  (exists calls, trace s' = trace s ++ calls /\ existsb isTransportPlay calls = false).
Proof.
  intros Hf Hu Hn s'. subst s'. unfold exec, result.
  rewrite (playTrack_no_url _ _ _ _ _ _ _ _ _ Hf Hu Hn). cbn.
  repeat split.
  - intros m ->. cbn.
    change (trace s ++ ?a :: ?b :: ?c :: [?d]) with (trace s ++ [a; b; c] ++ [d]).
    rewrite app_assoc. apply last_snoc.
  - eexists. split; [reflexivity|].
    destruct embedMessage; reflexivity.
Qed.

(** C8, amended: playTrack awaits the feedback call before it asks for the
    stream url.  The value the call resolves with is ignored: playTrack does
    the same whatever it is.  A rejected call makes playTrack show the
    playback error and return [false]; the stream url is not requested, no
    track is handed to the transport and the service is otherwise left as it
    was. *)
Theorem feedback_is_awaited player trackInfo token station embedMessage env s :
  (forall b1 b2,
     playTrack player trackInfo token station embedMessage
       (with_feedback (Resolved b1) env) s =
     playTrack player trackInfo token station embedMessage
       (with_feedback (Resolved b2) env) s) /\
  playTrack player trackInfo token station embedMessage
    (with_feedback Rejected env) s =
    (Returned false,
     with_trace
       (trace s ++ notice embedMessage (LoadingEmbed trackInfo)
                ++ [TrackStartedFeedback token station (ti_id trackInfo)]
                ++ notice embedMessage (PlaybackErrorEmbed trackInfo)) s).
Proof.
  split.
  - intros b1 b2. unfold playTrack, with_feedback. unfold_monad. cbn. reflexivity.
  - apply playTrack_feedback_rejected. reflexivity.
Qed.

(** ** The previous button *)

Lemma handlePrevious_empty g env s r pl p :
  players s !! g = Some pl ->
  playerStates s !! g = Some r ->
  objects s !! r = Some p ->
  previousTracks p = [] ->
  handlePrevious trackToTrackInfo g env s =
    (Returned tt, with_trace (trace s ++ [InteractionReply ReplyNoPreviousTracks]) s).
Proof.
  intros Hpl Hr Hp Hh.
  unfold handlePrevious. unfold_monad.
  repeat (progress (cbn; rewrite ?Hpl, ?Hr, ?Hp, ?Hh)).
  reflexivity.
Qed.

(** C9: pressing "previous" while the history is empty is answered with
    "no previous tracks", and nothing of the service changes but the record
    of that reply: every map, every session object (queue, history, current
    track, retry count, start time), the timers and the closures stay as
    they were. *)
Theorem previous_with_empty_history g env s r pl p :
  players s !! g = Some pl ->
  playerStates s !! g = Some r ->
  objects s !! r = Some p ->
  previousTracks p = [] ->
  onCollect trackToTrackInfo g previous env s =
    (Returned tt, with_trace (trace s ++ [InteractionReply ReplyNoPreviousTracks]) s).
Proof.
  intros Hpl Hr Hp Hh.
  unfold onCollect, bind, get. cbn. rewrite Hpl, Hr.
  now apply handlePrevious_empty with (r := r) (pl := pl) (p := p).
Qed.


(** ** The Idle and error listeners *)

Lemma emitIdle_listener player a env s :
  listeners s !! player = Some a ->
  emitIdle trackToTrackInfo player env s = onIdle trackToTrackInfo a env s.
Proof. intros H. unfold emitIdle, bind, get. now rewrite H. Qed.

Lemma emitError_listener player a s :
  listeners s !! player = Some a ->
  emitError player s = onError a s.
Proof. intros H. unfold emitError, bind, get. now rewrite H. Qed.

Lemma onIdle_while_loading a c env s :
  closures s !! a = Some c ->
  isLoadingTrack c = true ->
  onIdle trackToTrackInfo a env s = (Returned tt, s).
Proof.
  intros Hc Hl. unfold onIdle. unfold_monad.
  repeat (progress (cbn; rewrite ?Hc, ?Hl)).
  destruct (playerStates s !! pb_guildId c); reflexivity.
Qed.

Lemma onError_schedules a c r p t s :
  closures s !! a = Some c ->
  playerStates s !! pb_guildId c = Some r ->
  objects s !! r = Some p ->
  currentTrack p = Some t ->
  onError a s =
    (Returned tt,
     with_timers (timers s ++ [mkTimer 3000 (RetryAfterError a r)])
       (with_trace (trace s ++ notice (pb_embedMessage c) (ProblemEmbed t)) s)).
Proof.
  intros Hc Hr Hp Ht. unfold onError. unfold_monad.
  repeat (progress (cbn; rewrite ?Hc, ?Hr, ?Hp, ?Ht)).
  destruct (pb_embedMessage c); cbn; same_service.
  now rewrite app_nil_r.
Qed.

(** C3, amended: an Idle event that arrives while [isLoadingTrack] is set
    is ignored.  The service stays exactly as it was: no retry is scheduled,
    no queue and no history changes, nothing is handed to the transport. *)
Theorem idle_ignored_while_loading player a c env s :
  listeners s !! player = Some a ->
  closures s !! a = Some c ->
  isLoadingTrack c = true ->
  emitIdle trackToTrackInfo player env s = (Returned tt, s).
Proof.
  intros Hl Hc Hf.
  rewrite (emitIdle_listener _ _ _ _ Hl). now apply onIdle_while_loading with (c := c).
Qed.

(** The error listener does not read the flag. *)
Lemma emitError_schedules player a c r p t s :
  listeners s !! player = Some a ->
  closures s !! a = Some c ->
  playerStates s !! pb_guildId c = Some r ->
  objects s !! r = Some p ->
  currentTrack p = Some t ->
  emitError player s =
    (Returned tt,
     with_timers (timers s ++ [mkTimer 3000 (RetryAfterError a r)])
       (with_trace (trace s ++ notice (pb_embedMessage c) (ProblemEmbed t)) s)).
Proof.
  intros Hl Hc Hr Hp Ht. rewrite (emitError_listener _ _ _ Hl).
  now apply onError_schedules with (p := p).
Qed.

Lemma onIdle_interrupted a c r p t env s :
  closures s !! a = Some c ->
  isLoadingTrack c = false ->
  playerStates s !! pb_guildId c = Some r ->
  objects s !! r = Some p ->
  currentTrack p = Some t ->
  interrupted p (env_now env) = true ->
  onIdle trackToTrackInfo a env s =
    (Returned tt,
     with_timers (timers s ++ [mkTimer 3000 (RetryAfterIdle a r)])
       (with_objects (<[r := with_retryCount (retryCount p + 1) p]> (objects s))
          (with_trace (trace s ++ notice (pb_embedMessage c) (ReconnectEmbed t)) s))).
Proof.
  intros Hc Hl Hr Hp Ht Hi. unfold onIdle. unfold_monad.
  repeat (progress (cbn; rewrite ?Hc, ?Hl, ?Hr, ?Hp, ?Ht, ?Hi)).
  destruct (pb_embedMessage c); cbn; same_service.
  all: rewrite ?app_nil_r; try reflexivity.
  all: now rewrite (alter_found _ _ _ _ Hp).
Qed.

Lemma interrupted_spec p now :
  interrupted p now = true <->
  (playTime p now < MIN_PLAY_TIME)%Z /\ is_Some (currentTrack p) /\
  (retryCount p < MAX_RETRY_COUNT)%Z.
Proof.
  unfold interrupted. rewrite !andb_true_iff, !Z.ltb_lt, bool_decide_eq_true.
  tauto.
Qed.

Lemma fireTimer_last env cb delay s :
  fireTimer trackToTrackInfo (length (timers s)) env
    (with_timers (timers s ++ [mkTimer delay cb]) s) =
  runCallback trackToTrackInfo cb env s.
Proof.
  unfold fireTimer, bind, get, modify. cbn.
  rewrite list_lookup_middle by reflexivity. cbn.
  rewrite delete_middle, app_nil_r.
  f_equal. now destruct s.
Qed.

Lemma runCallback_retry_after_idle a c r p t env s :
  closures s !! a = Some c ->
  objects s !! r = Some p ->
  currentTrack p = Some t ->
  runCallback trackToTrackInfo (RetryAfterIdle a r) env s =
    (let! _ := playTrack (pb_player c) t (pb_accessToken c) (pb_stationId c)
                 (pb_embedMessage c) env in
     ret tt) s.
Proof.
  intros Hc Hp Ht. unfold runCallback, closure, deref.
  unfold bind at 1. rewrite Hc. unfold bind at 1. rewrite Hp. rewrite Ht.
  reflexivity.
Qed.


(** ** Advancing to the next track *)

Lemma playTrack_url_rejected player trackInfo token station embedMessage env b s :
  env_feedback env = Resolved b ->
  env_streamUrl env = Rejected ->
  playTrack player trackInfo token station embedMessage env s =
    (Returned false,
     with_trace
       (trace s ++ notice embedMessage (LoadingEmbed trackInfo)
                ++ [TrackStartedFeedback token station (ti_id trackInfo);
                    StreamUrlRequest token (ti_id trackInfo)]
                ++ notice embedMessage (PlaybackErrorEmbed trackInfo)) s).
Proof.
  intros Hf Hu. unfold playTrack. unfold_monad.
  destruct embedMessage; repeat (progress (cbn; rewrite ?Hf, ?Hu)); same_service.
Qed.

(** When the buttons cannot be redrawn the call fails half way: the history
    and the current track are already written, the track is not handed to
    the transport. *)
Lemma playTrack_controls_rejected player trackInfo token station m g r p m0 env b url s :
  msg_guild m = Some g ->
  truthy_string g = true ->
  playerStates s !! g = Some r ->
  objects s !! r = Some p ->
  env_feedback env = Resolved b ->
  env_streamUrl env = Resolved (Some url) ->
  truthy_string url = true ->
  editableEmbed p = Some m0 ->
  env_controlsEdit env = Rejected ->
  result (playTrack player trackInfo token station (Some m) env) s = Returned false.
Proof.
  intros Hg Hgt Hr Hp Hf Hu Hut He Hc.
  unfold result, playTrack, usable, guildIdOf, truthy_guild, get_state. unfold_monad.
  repeat (progress (cbn; rewrite ?Hf, ?Hu, ?Hut, ?Hg, ?Hgt, ?Hr, ?Hp, ?He, ?Hc)).
  destruct (currentTrack p);
    repeat (progress (cbn; rewrite ?Hf, ?Hu, ?Hut, ?Hg, ?Hgt, ?Hr, ?Hp, ?He, ?Hc));
    reflexivity.
Qed.

Lemma usable_Some u url : usable u = Some url -> u = Some url /\ truthy_string url = true.
Proof.
  unfold usable. destruct u as [v|]; [|discriminate].
  destruct (truthy_string v) eqn:Hv; [|discriminate].
  intros [= ->]. auto.
Qed.

(** Whenever playTrack returns [true] for the message of a registered
    session, the session is in its started state: the given track is
    current and [retryCount] is 0. *)
Lemma playTrack_true_started player trackInfo token station m g r p env s :
  msg_guild m = Some g ->
  truthy_string g = true ->
  playerStates s !! g = Some r ->
  objects s !! r = Some p ->
  result (playTrack player trackInfo token station (Some m) env) s = Returned true ->
  objects (exec (playTrack player trackInfo token station (Some m) env) s) !! r =
    Some (started trackInfo (env_startTime env) p).
Proof.
  intros Hg Hgt Hr Hp Hres.
  destruct (env_feedback env) as [b|] eqn:Hf.
  2:{ unfold result in Hres. rewrite playTrack_feedback_rejected in Hres by assumption.
      discriminate. }
  destruct (env_streamUrl env) as [u|] eqn:Hu.
  2:{ unfold result in Hres.
      rewrite (playTrack_url_rejected _ _ _ _ _ _ b) in Hres by assumption. discriminate. }
  destruct (usable u) as [url|] eqn:Huse.
  2:{ unfold result in Hres.
      rewrite (playTrack_no_url _ _ _ _ _ _ b u) in Hres by assumption. discriminate. }
  apply usable_Some in Huse as [-> Hut].
  destruct (editableEmbed p) as [m0|] eqn:He.
  - destruct (env_controlsEdit env) as [[]|] eqn:Hc.
    + unfold exec.
      rewrite (playTrack_started _ _ _ _ m g r p env b url) by auto.
      cbn. apply lookup_insert_eq.
    + rewrite (playTrack_controls_rejected _ _ _ _ m g r p m0 env b url) in Hres
        by assumption.
      discriminate.
  - unfold exec.
    rewrite (playTrack_started _ _ _ _ m g r p env b url) by auto.
    cbn. apply lookup_insert_eq.
Qed.

Lemma exhausted_not_interrupted p now :
  (MAX_RETRY_COUNT <= retryCount p)%Z -> interrupted p now = false.
Proof.
  intros H. apply not_true_is_false. rewrite interrupted_spec. lia.
Qed.

Lemma not_loading_again c :
  isLoadingTrack c = false ->
  with_isLoadingTrack false (with_isLoadingTrack true c) = c.
Proof. destruct c. cbn. now intros ->. Qed.

Lemma onIdle_advances a c m r p nextTrack q env url s :
  closures s !! a = Some c ->
  isLoadingTrack c = false ->
  plays_for c m ->
  playerStates s !! pb_guildId c = Some r ->
  objects s !! r = Some p ->
  interrupted p (env_now env) = false ->
  trackQueue p = nextTrack :: q ->
  lets_start env url ->
  onIdle trackToTrackInfo a env s =
    (Returned tt,
     mkService (players s) (connections s) (playerStates s)
       (<[pb_guildId c := createAudioResource url]> (currentResources s))
       (<[r := started (trackToTrackInfo nextTrack) (env_startTime env)
                 (with_trackQueue q p)]> (objects s))
       (closures s) (listeners s) (timers s)
       (trace s ++ [EditEmbed m (LoadingEmbed (trackToTrackInfo nextTrack));
                    TrackStartedFeedback (pb_accessToken c) (pb_stationId c)
                      (ti_id (trackToTrackInfo nextTrack));
                    StreamUrlRequest (pb_accessToken c)
                      (ti_id (trackToTrackInfo nextTrack))]
                ++ controlsEdited p
                ++ [TransportPlay (pb_player c) (createAudioResource url);
                    EditEmbed m (NowPlayingEmbed (trackToTrackInfo nextTrack))])
       (nextHandle s)).
Proof.
  intros Hc Hl (Hm & Hg & Hgt) Hr Hp Hi Hq (Hfb & Hu & Hut & Hce).
  destruct Hfb as [b Hfb].
  unfold onIdle, shift. unfold_monad.
  repeat (progress (cbn; rewrite ?Hc, ?Hl, ?Hr, ?Hp, ?Hi, ?Hq, ?Hm)).
  erewrite (playTrack_started _ _ _ _ m (pb_guildId c) r (with_trackQueue q p) env b url);
    try eassumption.
  - same_service.
    + rewrite (alter_found _ _ _ _ Hp). apply insert_insert_eq.
    + rewrite alter_alter_eq. rewrite (alter_found _ _ _ _ Hc).
      cbn. rewrite not_loading_again by assumption. now apply insert_id.
  - cbn. rewrite lookup_alter_eq, Hp. reflexivity.
  - right. assumption.
Qed.

(** C2, amended: once [retryCount] has reached 3, the next Idle event (with
    [isLoadingTrack] clear) does not retry the current track: it takes the
    head of the queue and starts it.  No retry timer is scheduled, the track
    that was current goes to the history, and the one track handed to the
    transport is the former head of the queue.  [retryCount] is 0 again, as
    it is after every call of playTrack that returns [true] for a registered
    session. *)
Theorem exhausted_retries_advance player a c m r p cur nextTrack q env url s :
  listeners s !! player = Some a ->
  closures s !! a = Some c ->
  isLoadingTrack c = false ->
  plays_for c m ->
  playerStates s !! pb_guildId c = Some r ->
  objects s !! r = Some p ->
  currentTrack p = Some cur ->
  retryCount p = MAX_RETRY_COUNT ->
  trackQueue p = nextTrack :: q ->
  lets_start env url ->
  let s1 := exec (emitIdle trackToTrackInfo player env) s in
  (exists p1,
     objects s1 !! r = Some p1 /\
     currentTrack p1 = Some (trackToTrackInfo nextTrack) /\
     trackQueue p1 = q /\
     previousTracks p1 =
       pushPreviousTrack (currentTrackAsYandexTrack cur) (previousTracks p) /\
     retryCount p1 = 0%Z) /\
  timers s1 = timers s /\
  closures s1 !! a = Some c /\
  trace s1 =
    trace s ++ [EditEmbed m (LoadingEmbed (trackToTrackInfo nextTrack));
                TrackStartedFeedback (pb_accessToken c) (pb_stationId c)
                  (ti_id (trackToTrackInfo nextTrack));
                StreamUrlRequest (pb_accessToken c)
                  (ti_id (trackToTrackInfo nextTrack))]
            ++ controlsEdited p
            ++ [TransportPlay (pb_player c) (createAudioResource url);
                EditEmbed m (NowPlayingEmbed (trackToTrackInfo nextTrack))] /\
  (forall player' trackInfo token station m' g' r' p' env' s',
     msg_guild m' = Some g' ->
     truthy_string g' = true ->
     playerStates s' !! g' = Some r' ->
     objects s' !! r' = Some p' ->
     result (playTrack player' trackInfo token station (Some m') env') s' = Returned true ->
     exists p1,
       objects (exec (playTrack player' trackInfo token station (Some m') env') s') !! r'
         = Some p1 /\
       currentTrack p1 = Some trackInfo /\
       retryCount p1 = 0%Z).
Proof.
  intros Hl Hc Hf Hm Hr Hp Hcur Hretry Hq Hs s1.
  assert (Hi : interrupted p (env_now env) = false).
  { apply exhausted_not_interrupted. lia. }
  subst s1. unfold exec. rewrite (emitIdle_listener _ _ _ _ Hl).
  rewrite (onIdle_advances a c m r p nextTrack q env url s) by assumption.
  cbn. repeat split; try assumption.
  - eexists. split; [apply lookup_insert_eq|].
    unfold started, remembered. cbn. rewrite Hcur. cbn. repeat split.
  - intros player' trackInfo token station m' g' r' p' env' s' Hg' Hgt' Hr' Hp' Hres.
    eexists. split.
    + apply (playTrack_true_started _ _ _ _ m' g' r' p' env' s' Hg' Hgt' Hr' Hp' Hres).
    + split; reflexivity.
Qed.


(** ** Stop and the pending timers *)

Lemma fireTimer_at i tm env s :
  timers s !! i = Some tm ->
  fireTimer trackToTrackInfo i env s =
    runCallback trackToTrackInfo (tm_callback tm) env
      (with_timers (delete i (timers s)) s).
Proof. intros H. unfold fireTimer, bind, get, modify. now rewrite H. Qed.

Lemma stop_removes g pl conn r p env s :
  players s !! g = Some pl ->
  connections s !! g = Some conn ->
  playerStates s !! g = Some r ->
  objects s !! r = Some p ->
  onCollect trackToTrackInfo g stop env s =
    (Returned tt,
     with_trace
       (trace s ++ [TransportStop pl; ConnectionDestroy conn]
                ++ notice (editableEmbed p) StoppedEmbed
                ++ [InteractionReply (stopReply p env)])
       (with_currentResources (delete g (currentResources s))
          (with_playerStates (delete g (playerStates s))
             (with_connections (delete g (connections s))
                (with_players (delete g (players s)) s))))).
Proof.
  intros Hpl Hconn Hr Hp. unfold onCollect, handleStop, forget, stopReply, redrawn.
  unfold_monad.
  repeat (progress (cbn; rewrite ?Hpl, ?Hconn, ?Hr, ?Hp)).
  destruct (editableEmbed p); [destruct (env_stoppedEdit env) as [[]|]|];
    cbn; same_service.
Qed.

Lemma retry_without_session a c m r p t env url s :
  closures s !! a = Some c ->
  plays_for c m ->
  playerStates s !! pb_guildId c = None ->
  objects s !! r = Some p ->
  currentTrack p = Some t ->
  lets_start env url ->
  runCallback trackToTrackInfo (RetryAfterIdle a r) env s =
    (Returned tt,
     mkService (players s) (connections s) (playerStates s)
       (<[pb_guildId c := createAudioResource url]> (currentResources s))
       (objects s) (closures s) (listeners s) (timers s)
       (trace s ++ [EditEmbed m (LoadingEmbed t);
                    TrackStartedFeedback (pb_accessToken c) (pb_stationId c) (ti_id t);
                    StreamUrlRequest (pb_accessToken c) (ti_id t);
                    TransportPlay (pb_player c) (createAudioResource url);
                    EditEmbed m (NowPlayingEmbed t)])
       (nextHandle s)).
Proof.
  intros Hc (Hm & Hg & Hgt) Hr Hp Ht (Hfb & Hu & Hut & Hce). destruct Hfb as [b Hfb].
  rewrite (runCallback_retry_after_idle a c r p t env s) by assumption.
  unfold bind. rewrite Hm.
  rewrite (playTrack_unregistered _ _ _ _ m (pb_guildId c) env b url s) by assumption.
  reflexivity.
Qed.

(** Whatever the outside world answers, a retry that finds no session
    writes no session object. *)
Lemma retry_without_session_writes_nothing a c m r p env s :
  closures s !! a = Some c ->
  plays_for c m ->
  playerStates s !! pb_guildId c = None ->
  objects s !! r = Some p ->
  let s' := exec (runCallback trackToTrackInfo (RetryAfterIdle a r) env) s in
  objects s' = objects s /\ playerStates s' = playerStates s.
Proof.
  intros Hc (Hm & Hg & Hgt) Hr Hp s'. subst s'. unfold exec.
  destruct (currentTrack p) as [t|] eqn:Ht.
  - rewrite (runCallback_retry_after_idle a c r p t env s) by assumption.
    unfold bind. rewrite Hm.
    destruct (env_feedback env) as [b|] eqn:Hf.
    2:{ rewrite playTrack_feedback_rejected by assumption. split; reflexivity. }
    destruct (env_streamUrl env) as [u|] eqn:Hu.
    2:{ rewrite (playTrack_url_rejected _ _ _ _ _ _ b) by assumption. split; reflexivity. }
    destruct (usable u) as [url|] eqn:Huse.
    2:{ rewrite (playTrack_no_url _ _ _ _ _ _ b u) by assumption. split; reflexivity. }
    apply usable_Some in Huse as [-> Hut].
    rewrite (playTrack_unregistered _ _ _ _ m (pb_guildId c) env b url s) by assumption.
    split; reflexivity.
  - unfold runCallback, closure, deref, bind. rewrite Hc, Hp, Ht.
    split; reflexivity.
Qed.

Lemma emit_again_without_session a c env s :
  closures s !! a = Some c ->
  listeners s !! pb_player c = Some a ->
  playerStates s !! pb_guildId c = None ->
  runCallback trackToTrackInfo (EmitIdleAgain a) env s =
    (Returned tt,
     with_closures (<[a := with_isLoadingTrack false c]> (closures s)) s).
Proof.
  intros Hc Hl Hr. unfold runCallback, emitIdle, onIdle. unfold_monad.
  repeat (progress (cbn; rewrite ?Hc, ?Hl, ?Hr, ?lookup_alter_eq)).
  same_service. now rewrite (alter_found _ _ _ _ Hc).
Qed.

(** Whatever the outside world answers, playTrack on the message of a guild
    that has no session writes nothing but the current resource of the guild
    and the trace. *)
Lemma playTrack_unregistered_frame player trackInfo token station m g env s :
  msg_guild m = Some g ->
  truthy_string g = true ->
  playerStates s !! g = None ->
  let s' := exec (playTrack player trackInfo token station (Some m) env) s in
  objects s' = objects s /\
  playerStates s' = playerStates s /\
  players s' = players s /\
  connections s' = connections s /\
  closures s' = closures s /\
  listeners s' = listeners s /\
  timers s' = timers s.
Proof.
  intros Hg Hgt Hr s'. subst s'. unfold exec.
  destruct (env_feedback env) as [b|] eqn:Hf.
  2:{ rewrite playTrack_feedback_rejected by assumption. repeat split. }
  destruct (env_streamUrl env) as [u|] eqn:Hu.
  2:{ rewrite (playTrack_url_rejected _ _ _ _ _ _ b) by assumption. repeat split. }
  destruct (usable u) as [url|] eqn:Huse.
  2:{ rewrite (playTrack_no_url _ _ _ _ _ _ b u) by assumption. repeat split. }
  apply usable_Some in Huse as [-> Hut].
  rewrite (playTrack_unregistered _ _ _ _ m g env b url s) by assumption.
  repeat split.
Qed.

Lemma runCallback_retry_after_error a c r p t env s :
  closures s !! a = Some c ->
  objects s !! r = Some p ->
  currentTrack p = Some t ->
  (retryCount p < MAX_RETRY_COUNT)%Z ->
  runCallback trackToTrackInfo (RetryAfterError a r) env s =
    (let! _ := playTrack (pb_player c) t (pb_accessToken c) (pb_stationId c)
                 (pb_embedMessage c) env in
     ret tt)
      (with_objects (<[r := with_retryCount (retryCount p + 1) p]> (objects s)) s).
Proof.
  intros Hc Hp Ht Hlt. unfold runCallback, closure, deref, update, modify.
  unfold bind at 1. rewrite Hc. unfold bind at 1. rewrite Hp, Ht.
  apply Z.ltb_lt in Hlt. rewrite Hlt.
  unfold bind at 1. now rewrite (alter_found _ _ _ _ Hp).
Qed.

Lemma same_tracks_refl p : same_tracks p p.
Proof. repeat split. Qed.

(** A timer that fires while the guild of its activation has no session. *)
Lemma stale_timer a c m env s cb :
  activationOf cb = a ->
  closures s !! a = Some c ->
  plays_for c m ->
  listeners s !! pb_player c = Some a ->
  playerStates s !! pb_guildId c = None ->
  let s' := exec (runCallback trackToTrackInfo cb env) s in
  timers s' = timers s /\
  playerStates s' = playerStates s /\
  players s' = players s /\
  connections s' = connections s /\
  listeners s' = listeners s /\
  (forall r p, objects s !! r = Some p ->
     exists p', objects s' !! r = Some p' /\ same_tracks p p') /\
  (forall r p', objects s' !! r = Some p' -> is_Some (objects s !! r)).
Proof.
  intros Ha Hc Hm Hl Hr s'. subst s'.
  assert (Hidle : forall s0,
    closures s0 !! a = Some c -> listeners s0 = listeners s ->
    playerStates s0 = playerStates s ->
    (let! _ := set_isLoadingTrack a false in emitIdle trackToTrackInfo (pb_player c) env) s0 =
      (Returned tt,
       with_closures (<[a := with_isLoadingTrack false c]> (closures s0)) s0)).
  { intros s0 Hc0 Hl0 Hr0. unfold emitIdle, onIdle. unfold_monad.
    repeat (progress (cbn; rewrite ?Hc0, ?Hl0, ?Hl, ?Hr0, ?Hr, ?lookup_alter_eq)).
    same_service. now rewrite (alter_found _ _ _ _ Hc0). }
  assert (Hkeep : forall (objs : gmap Ref PlayerState) r p,
    objs !! r = Some p -> exists p', objs !! r = Some p' /\ same_tracks p p').
  { intros objs r p Hp. exists p. split; [exact Hp|apply same_tracks_refl]. }
  destruct Hm as (Hm & Hg & Hgt).
  unfold exec.
  remember (runCallback trackToTrackInfo cb env s) as out eqn:Hout.
  destruct cb as [a' r0|a' r0|a']; cbn in Ha; subst a'; unfold runCallback in Hout.
  - unfold closure, deref in Hout. unfold bind at 1 in Hout. rewrite Hc in Hout.
    unfold bind at 1 in Hout.
    destruct (objects s !! r0) as [p0|] eqn:Hp0; [|subst out; cbn; repeat split; eauto].
    destruct (currentTrack p0) as [t|] eqn:Ht.
    + destruct (retryCount p0 <? MAX_RETRY_COUNT)%Z.
      * unfold bind at 1 in Hout. unfold update, modify in Hout. cbn [fst snd] in Hout.
        set (s0 := with_objects _ s) in Hout.
        unfold bind in Hout. rewrite Hm in Hout.
        pose proof (playTrack_unregistered_frame (pb_player c) t (pb_accessToken c)
                      (pb_stationId c) m (pb_guildId c) env s0 Hg Hgt Hr)
          as (Ho & Hps & Hpl & Hco & _ & Hli & Hti).
        unfold exec in Ho, Hps, Hpl, Hco, Hli, Hti.
        destruct (playTrack _ _ _ _ _ _ s0) as [[res|] s1]; subst out; cbn in *;
          rewrite Ho, Hps, Hpl, Hco, Hli, Hti;
          (split; [reflexivity|]); (split; [reflexivity|]); (split; [reflexivity|]);
          (split; [reflexivity|]); (split; [reflexivity|]);
          (split; intros r p; rewrite lookup_alter; case_decide;
           [subst; intros ->; cbn; eexists; split; [reflexivity|repeat split]
           |eauto
           |subst; rewrite Hp0; eauto
           |eauto]).
      * rewrite (Hidle s Hc eq_refl eq_refl) in Hout. subst out. cbn. repeat split; eauto.
    + rewrite (Hidle s Hc eq_refl eq_refl) in Hout. subst out. cbn. repeat split; eauto.
  - unfold closure, deref in Hout. unfold bind at 1 in Hout. rewrite Hc in Hout.
    unfold bind at 1 in Hout.
    destruct (objects s !! r0) as [p0|] eqn:Hp0; [|subst out; cbn; repeat split; eauto].
    destruct (currentTrack p0) as [t|] eqn:Ht; [|subst out; cbn; repeat split; eauto].
    unfold bind in Hout. rewrite Hm in Hout.
    pose proof (playTrack_unregistered_frame (pb_player c) t (pb_accessToken c)
                  (pb_stationId c) m (pb_guildId c) env s Hg Hgt Hr)
      as (Ho & Hps & Hpl & Hco & _ & Hli & Hti).
    unfold exec in Ho, Hps, Hpl, Hco, Hli, Hti.
    destruct (playTrack _ _ _ _ _ _ s) as [[res|] s1]; subst out; cbn in *;
      rewrite Ho, Hps, Hpl, Hco, Hli, Hti; repeat split; eauto.
  - unfold closure in Hout. unfold bind at 1 in Hout. rewrite Hc in Hout.
    rewrite (Hidle s Hc eq_refl eq_refl) in Hout. subst out. cbn. repeat split; eauto.
Qed.

(** C4, amended: "stop" stops the player, destroys the connection and
    removes the entries of the guild from the four maps; it cancels no timer,
    the pending ones stay pending.  Whenever one of them fires while the
    guild has no session (right after the stop or later, until createPlayer
    registers the guild again), no session is registered and no session
    object gains, loses or changes its current track, its queue or its
    history.  A refill or advance timer then only clears [isLoadingTrack]:
    the Idle listener finds no session, and nothing is called outside.  A
    retry timer of the Idle listener, and one of the error listener below 3
    retries, still calls playTrack on the current track of the session
    object it captured, so that track is handed to the player the listener
    was set up on as soon as its stream url resolves; the retry of the error
    listener also adds 1 to [retryCount] of that object. *)
Theorem stop_leaves_timers_pending g pl conn r p env s :
  players s !! g = Some pl ->
  connections s !! g = Some conn ->
  playerStates s !! g = Some r ->
  objects s !! r = Some p ->
  let s1 := exec (onCollect trackToTrackInfo g stop env) s in
  (timers s1 = timers s /\
   players s1 !! g = None /\
   connections s1 !! g = None /\
   playerStates s1 !! g = None /\
   currentResources s1 !! g = None /\
   objects s1 = objects s /\
   closures s1 = closures s /\
   listeners s1 = listeners s /\
   trace s1 = trace s ++ [TransportStop pl; ConnectionDestroy conn]
                      ++ notice (editableEmbed p) StoppedEmbed
                      ++ [InteractionReply (stopReply p env)]) /\
  (forall s2 i tm a c m env',
     playerStates s2 !! g = None ->
     timers s2 !! i = Some tm ->
     activationOf (tm_callback tm) = a ->
     closures s2 !! a = Some c ->
     plays_for c m ->
     pb_guildId c = g ->
     listeners s2 !! pb_player c = Some a ->
     let s3 := exec (fireTimer trackToTrackInfo i env') s2 in
     timers s3 = delete i (timers s2) /\
     playerStates s3 = playerStates s2 /\
     players s3 = players s2 /\
     connections s3 = connections s2 /\
     (forall r' p', objects s2 !! r' = Some p' ->
        exists p'', objects s3 !! r' = Some p'' /\ same_tracks p' p'') /\
     (forall r' p'', objects s3 !! r' = Some p'' -> is_Some (objects s2 !! r')) /\
     (tm_callback tm = EmitIdleAgain a ->
        s3 = with_closures (<[a := with_isLoadingTrack false c]> (closures s2))
               (with_timers (delete i (timers s2)) s2)) /\
     (forall r0 p0 t url,
        tm_callback tm = RetryAfterIdle a r0 ->
        objects s2 !! r0 = Some p0 ->
        currentTrack p0 = Some t ->
        lets_start env' url ->
        trace s3 =
          trace s2 ++ [EditEmbed m (LoadingEmbed t);
                       TrackStartedFeedback (pb_accessToken c) (pb_stationId c) (ti_id t);
                       StreamUrlRequest (pb_accessToken c) (ti_id t);
                       TransportPlay (pb_player c) (createAudioResource url);
                       EditEmbed m (NowPlayingEmbed t)]) /\
     (forall r0 p0 t url,
        tm_callback tm = RetryAfterError a r0 ->
        objects s2 !! r0 = Some p0 ->
        currentTrack p0 = Some t ->
        (retryCount p0 < MAX_RETRY_COUNT)%Z ->
        lets_start env' url ->
        objects s3 !! r0 = Some (with_retryCount (retryCount p0 + 1) p0) /\
        trace s3 =
          trace s2 ++ [EditEmbed m (LoadingEmbed t);
                       TrackStartedFeedback (pb_accessToken c) (pb_stationId c) (ti_id t);
                       StreamUrlRequest (pb_accessToken c) (ti_id t);
                       TransportPlay (pb_player c) (createAudioResource url);
                       EditEmbed m (NowPlayingEmbed t)])).
Proof.
  intros Hpl Hconn Hr Hp s1. split.
  - subst s1. unfold exec.
    rewrite (stop_removes g pl conn r p env s) by assumption.
    cbn [snd]. cbn.
    split; [reflexivity|].
    do 4 (split; [apply lookup_delete_eq|]).
    repeat split.
  - clear s1. intros s2 i tm a c m env' Hgone Hi Ha Hc Hm Hg Hl s3.
    subst s3. unfold exec.
    rewrite (fireTimer_at i tm env' s2 Hi).
    set (s0 := with_timers (delete i (timers s2)) s2).
    rewrite <- Hg in Hgone.
    pose proof (stale_timer a c m env' s0 (tm_callback tm) Ha Hc Hm Hl Hgone)
      as (Hti & Hps & Hpls & Hco & _ & Hsame & Hdom).
    unfold exec in Hti, Hps, Hpls, Hco, Hsame, Hdom.
    split; [exact Hti|]. split; [exact Hps|]. split; [exact Hpls|].
    split; [exact Hco|]. split; [exact Hsame|]. split; [exact Hdom|].
    split; [|split].
    + intros Hcb. rewrite Hcb.
      rewrite (emit_again_without_session a c env' s0 Hc Hl Hgone). reflexivity.
    + intros r0 p0 t url Hcb Hp0 Ht Hs. rewrite Hcb.
      rewrite (retry_without_session a c m r0 p0 t env' url s0 Hc Hm Hgone Hp0 Ht Hs).
      reflexivity.
    + intros r0 p0 t url Hcb Hp0 Ht Hlt Hs. rewrite Hcb.
      rewrite (runCallback_retry_after_error a c r0 p0 t env' s0 Hc Hp0 Ht Hlt).
      destruct Hm as (Hm & Hmg & Hgt). destruct Hs as ([b Hfb] & Hu & Hut & _).
      unfold bind. rewrite Hm.
      rewrite (playTrack_unregistered _ _ _ _ m (pb_guildId c) env' b url) by assumption.
      cbn. split; [apply lookup_insert_eq|reflexivity].
Qed.

(** ** createPlayer *)

Lemma createPlayer_ready options env editable s :
  env_ready env = true ->
  (opt_channelSends options = true -> env_send env = Resolved editable) ->
  let g := opt_guildId options in
  let player := nextHandle s in
  let embedMessage :=
    if opt_channelSends options
    then Some (mkMessage (S player) (Some g) editable) else None in
  let r := if opt_channelSends options then S (S player) else S player in
  createPlayer options env s =
    (Returned (player, env_connection env, embedMessage),
     mkService (<[g := player]> (players s))
       (<[g := env_connection env]> (connections s))
       (<[g := r]> (playerStates s))
       (currentResources s)
       (<[r := initialState options embedMessage]> (objects s))
       (closures s) (listeners s) (timers s)
       (trace s ++ [Join g (env_connection env); Subscribe (env_connection env) player]
                ++ (if opt_channelSends options then [SendEmbed g InitialEmbed] else []))
       (S r)).
Proof.
  intros Hready Hsend. unfold createPlayer. unfold_monad.
  repeat (progress (cbn; rewrite ?Hready)).
  destruct (opt_channelSends options); [rewrite Hsend by reflexivity|];
    cbn; same_service.
Qed.

Lemma createPlayer_timeout options env s :
  env_ready env = false ->
  createPlayer options env s =
    (Thrown,
     with_trace
       (trace s ++ [Join (opt_guildId options) (env_connection env);
                    Subscribe (env_connection env) (nextHandle s);
                    ConnectionDestroy (env_connection env)])
       (with_nextHandle (S (nextHandle s)) s)).
Proof.
  intros Hready. unfold createPlayer. unfold_monad.
  repeat (progress (cbn; rewrite ?Hready)).
  same_service.
Qed.

(** The message cannot be sent: the promise of createPlayer rejects at line
    138, before anything is registered.  The connection stays open and
    subscribed. *)
Lemma createPlayer_unsent options env s :
  env_ready env = true ->
  opt_channelSends options = true ->
  env_send env = Rejected ->
  createPlayer options env s =
    (Thrown,
     with_trace
       (trace s ++ [Join (opt_guildId options) (env_connection env);
                    Subscribe (env_connection env) (nextHandle s);
                    SendEmbed (opt_guildId options) InitialEmbed])
       (with_nextHandle (S (nextHandle s)) s)).
Proof.
  intros Hready Hch Hsend. unfold createPlayer. unfold_monad.
  repeat (progress (cbn; rewrite ?Hready, ?Hch, ?Hsend)).
  same_service.
Qed.

(** createPlayer either registers the session or fails without touching
    anything but the trace and the handles. *)
Lemma createPlayer_outcome options env s :
  (exists editable,
     env_ready env = true /\
     (opt_channelSends options = true -> env_send env = Resolved editable)) \/
  (exists calls,
     createPlayer options env s =
       (Thrown, with_trace (trace s ++ calls) (with_nextHandle (S (nextHandle s)) s))).
Proof.
  destruct (env_ready env) eqn:Hready.
  - destruct (opt_channelSends options) eqn:Hch.
    + destruct (env_send env) as [editable|] eqn:Hsend.
      * left. exists editable. auto.
      * right. eexists. now apply createPlayer_unsent.
    + left. exists true. split; [reflexivity|discriminate].
  - right. eexists. now apply createPlayer_timeout.
Qed.

(** C6, amended: creating a player for a guild that already has a session
    is not rejected.  When the voice connection gets ready and the player
    message is sent (or the channel cannot send), the call returns a new
    player and overwrites the entries of the guild: the registry then points
    to a session object in its initial state (nothing current, empty queue
    and history).  The call fails in two ways only, the connection not
    getting ready in time and the sending of the player message being
    rejected, and in both the registry keeps the session it had. *)
Theorem createPlayer_replaces_session options env r0 s :
  playerStates s !! opt_guildId options = Some r0 ->
  let g := opt_guildId options in
  let s' := exec (createPlayer options env) s in
  (forall editable,
     env_ready env = true ->
     (opt_channelSends options = true -> env_send env = Resolved editable) ->
     exists player embedMessage r,
       result (createPlayer options env) s =
         Returned (player, env_connection env, embedMessage) /\
       players s' !! g = Some player /\
       connections s' !! g = Some (env_connection env) /\
       playerStates s' !! g = Some r /\
       objects s' !! r = Some (initialState options embedMessage)) /\
  (env_ready env = false \/
   (opt_channelSends options = true /\ env_send env = Rejected) ->
   result (createPlayer options env) s = Thrown /\
   players s' = players s /\
   connections s' = connections s /\
   playerStates s' = playerStates s /\
   currentResources s' = currentResources s /\
   objects s' = objects s).
Proof.
  intros Hr0 g s'. subst s'. unfold exec, result. split.
  - intros editable Hready Hsend.
    rewrite (createPlayer_ready options env editable s Hready Hsend). cbn.
    do 3 eexists. split; [reflexivity|].
    rewrite !lookup_insert_eq. repeat split.
  - intros Hfail. destruct (env_ready env) eqn:Hready.
    + destruct Hfail as [Hfail|[Hch Hsend]]; [discriminate|].
      rewrite (createPlayer_unsent options env s Hready Hch Hsend). cbn. repeat split.
    + rewrite (createPlayer_timeout options env s Hready). cbn. repeat split.
Qed.

(** ** Invariants of the reachable states *)

Lemma keeps_ret I {A} (a : A) : keeps I (ret a).
Proof. intros s H. exact H. Qed.

Lemma keeps_throw I {A} : keeps I (@throw A).
Proof. intros s H. exact H. Qed.

Lemma keeps_get I : keeps I get.
Proof. intros s H. exact H. Qed.

Lemma keeps_bind I {A B} (m : M A) (k : A -> M B) :
  keeps I m -> (forall a, keeps I (k a)) -> keeps I (bind m k).
Proof.
  intros Hm Hk s H. unfold exec, bind. specialize (Hm s H). unfold exec in Hm.
  destruct (m s) as [[a|] s1]; cbn in *; [|exact Hm].
  exact (Hk a s1 Hm).
Qed.

Lemma keeps_try_catch I {A} (body handler : M A) :
  keeps I body -> keeps I handler -> keeps I (try_catch body handler).
Proof.
  intros Hb Hh s H. unfold exec, try_catch. specialize (Hb s H). unfold exec in Hb.
  destruct (body s) as [[a|] s1]; cbn in *; [exact Hb|].
  exact (Hh s1 Hb).
Qed.

Lemma keeps_modify (I : Service -> Prop) f :
  (forall s, I s -> I (f s)) -> keeps I (modify f).
Proof. intros Hf s H. exact (Hf s H). Qed.

Lemma keeps_deref I r : keeps I (deref r).
Proof. intros s H. unfold exec, deref. now destruct (objects s !! r). Qed.

Lemma keeps_closure I a : keeps I (closure a).
Proof. intros s H. unfold exec, closure. now destruct (closures s !! a). Qed.

Lemma sound_same_objects s s' :
  playerStates s' = playerStates s -> objects s' = objects s -> sound s -> sound s'.
Proof.
  intros Hs Ho [Hreg Hb]. split.
  - intros g r. rewrite Hs, Ho. apply Hreg.
  - intros r p. rewrite Ho. apply Hb.
Qed.

Lemma sound_emit e : keeps sound (emit e).
Proof. apply keeps_modify. intros s. now apply sound_same_objects. Qed.

Lemma sound_setTimeout cb d : keeps sound (setTimeout cb d).
Proof. apply keeps_modify. intros s. now apply sound_same_objects. Qed.

Lemma sound_set_isLoadingTrack a b : keeps sound (set_isLoadingTrack a b).
Proof. apply keeps_modify. intros s. now apply sound_same_objects. Qed.

Lemma sound_fresh : keeps sound fresh.
Proof. intros s. now apply sound_same_objects. Qed.

Lemma sound_update r f :
  (forall p, bounded p -> bounded (f p)) -> keeps sound (update r f).
Proof.
  intros Hf. apply keeps_modify. intros s [Hreg Hb]. split.
  - intros g r' Hr'. cbn. destruct (Hreg g r' Hr') as [p Hp].
    rewrite lookup_alter. case_decide; subst; rewrite Hp; cbn; eauto.
  - intros r' p. cbn. rewrite lookup_alter.
    case_decide; [subst|apply Hb].
    destruct (objects s !! r') as [p0|] eqn:Hp0; cbn; [|discriminate].
    intros [= <-]. apply Hf. now apply (Hb r').
Qed.

Lemma sound_await {A} call (answer : Awaited A) : keeps sound (await call answer).
Proof.
  unfold await. apply keeps_bind; [apply sound_emit|].
  intros _. destruct answer; [apply keeps_ret|apply keeps_throw].
Qed.

Lemma sound_forget g : keeps sound (forget g).
Proof.
  unfold forget.
  repeat (apply keeps_bind; [|intros _]); apply keeps_modify; intros s [Hreg Hb];
    (split; [|exact Hb]); intros g' r'; cbn; try apply Hreg.
  rewrite lookup_delete_Some. intros [_ H]. now apply (Hreg g').
Qed.

Lemma bounded_push t h :
  length h <= 10 -> length (pushPreviousTrack t h) <= 10.
Proof.
  intros H. unfold pushPreviousTrack.
  destruct (10 <=? length h) eqn:E.
  - apply Nat.leb_le in E. rewrite length_app, length_drop. cbn. lia.
  - apply Nat.leb_gt in E. rewrite length_app. cbn. lia.
Qed.

Lemma bounded_removelast (h : list IYandexTrack) :
  length h <= 10 -> length (removelast h) <= 10.
Proof.
  intros H. destruct (decide (h = [])) as [->|Hne]; [cbn; lia|].
  destruct (exists_last Hne) as (l & x & ->).
  rewrite removelast_last. rewrite length_app in H. lia.
Qed.

Create HintDb sound_db.

#[local] Hint Resolve keeps_ret keeps_throw keeps_get keeps_deref keeps_closure
  sound_emit sound_setTimeout sound_set_isLoadingTrack sound_fresh sound_await
  sound_forget bounded_push bounded_removelast : sound_db.

Ltac keeps_sound :=
  repeat first
    [ solve [auto 1 with sound_db]
    | match goal with
      | |- keeps _ (try_catch _ _) => apply keeps_try_catch
      | |- keeps _ (bind _ _) => apply keeps_bind; [|intros ?]
      | |- keeps _ (update _ _) =>
          apply sound_update; unfold bounded; cbn; intros;
          solve [auto 2 with sound_db]
      | |- keeps _ (modify _) =>
          apply keeps_modify; intros ?; apply sound_same_objects; reflexivity
      | |- keeps _ (match ?x with _ => _ end) => destruct x
      | |- keeps _ (when_msg _ _) => unfold when_msg
      | |- keeps _ (reply _) => unfold reply
      | |- keeps _ (updateEmbed _ _) => unfold updateEmbed
      | |- keeps _ (updateEmbedWithError _ _) => unfold updateEmbedWithError
      end ].

Lemma sound_playTrack player trackInfo token station embedMessage env :
  keeps sound (playTrack player trackInfo token station embedMessage env).
Proof. unfold playTrack. keeps_sound. Qed.

#[local] Hint Resolve sound_playTrack : sound_db.

Lemma sound_createPlayer options env : keeps sound (createPlayer options env).
Proof.
  intros s [Hreg Hb]. unfold exec.
  destruct (createPlayer_outcome options env s) as [(editable & Hready & Hsend)|(calls & ->)].
  - rewrite (createPlayer_ready options env editable s Hready Hsend). cbn.
    set (r := if opt_channelSends options then _ else _).
    split.
    + intros g' r'. cbn. rewrite lookup_insert. case_decide.
      * intros [= <-]. rewrite lookup_insert_eq. eauto.
      * intros H'. destruct (Hreg g' r' H') as [p Hp].
        rewrite lookup_insert. case_decide; eauto.
    + intros r' p. cbn. rewrite lookup_insert. case_decide.
      * intros [= <-]. unfold bounded. cbn. lia.
      * apply Hb.
  - cbn. apply (sound_same_objects s); [reflexivity|reflexivity|now split].
Qed.

#[local] Hint Resolve sound_createPlayer : sound_db.

Lemma sound_onDisconnected g connection : keeps sound (onDisconnected g connection).
Proof. unfold onDisconnected. keeps_sound. Qed.

Lemma sound_setupInfinitePlayback player token station embedMessage initialTracks :
  keeps sound (setupInfinitePlayback player token station embedMessage initialTracks).
Proof. unfold setupInfinitePlayback. keeps_sound. Qed.

Lemma sound_loadMoreTracks c env : keeps sound (loadMoreTracks c env).
Proof. unfold loadMoreTracks. keeps_sound. Qed.

#[local] Hint Resolve sound_loadMoreTracks : sound_db.

Lemma sound_onError a : keeps sound (onError a).
Proof. unfold onError. keeps_sound. Qed.

#[local] Hint Resolve sound_onError : sound_db.

Lemma sound_emitError player : keeps sound (emitError player).
Proof. unfold emitError. keeps_sound. Qed.

Lemma sound_handleLike g env : keeps sound (handleLike g env).
Proof. unfold handleLike. keeps_sound. Qed.

Lemma sound_handlePause g env : keeps sound (handlePause g env).
Proof. unfold handlePause. keeps_sound. Qed.

Lemma sound_handlePlay g env : keeps sound (handlePlay g env).
Proof. unfold handlePlay. keeps_sound. Qed.

Lemma sound_handleStop g env : keeps sound (handleStop g env).
Proof. unfold handleStop. keeps_sound. Qed.

#[local] Hint Resolve sound_onDisconnected sound_setupInfinitePlayback
  sound_emitError sound_handleLike
  sound_handlePause sound_handlePlay sound_handleStop : sound_db.

Lemma sound_shift r : keeps sound (shift r).
Proof. unfold shift. keeps_sound. Qed.

Lemma sound_pop r : keeps sound (pop r).
Proof. unfold pop. keeps_sound. Qed.

#[local] Hint Resolve sound_shift sound_pop : sound_db.

Lemma sound_onIdle a env : keeps sound (onIdle trackToTrackInfo a env).
Proof. unfold onIdle. keeps_sound. Qed.

#[local] Hint Resolve sound_onIdle : sound_db.

Lemma sound_emitIdle player env : keeps sound (emitIdle trackToTrackInfo player env).
Proof. unfold emitIdle. keeps_sound. Qed.

#[local] Hint Resolve sound_emitIdle : sound_db.

Lemma sound_runCallback cb env : keeps sound (runCallback trackToTrackInfo cb env).
Proof. unfold runCallback. keeps_sound. Qed.

Lemma sound_handlePrevious g env : keeps sound (handlePrevious trackToTrackInfo g env).
Proof. unfold handlePrevious. keeps_sound. Qed.

Lemma sound_handleNext g env : keeps sound (handleNext trackToTrackInfo g env).
Proof. unfold handleNext. keeps_sound. Qed.

#[local] Hint Resolve sound_runCallback sound_handlePrevious sound_handleNext : sound_db.

Lemma sound_onCollect g customId env :
  keeps sound (onCollect trackToTrackInfo g customId env).
Proof. unfold onCollect. keeps_sound. Qed.

Lemma sound_fireTimer i env : keeps sound (fireTimer trackToTrackInfo i env).
Proof. unfold fireTimer. keeps_sound. Qed.

#[local] Hint Resolve sound_onCollect sound_fireTimer : sound_db.

Lemma sound_handle ev env : keeps sound (handle trackToTrackInfo ev env).
Proof. unfold handle. keeps_sound. Qed.

Lemma sound_empty : sound emptyService.
Proof.
  split.
  - intros g r H. cbn in H. now rewrite lookup_empty in H.
  - intros r p H. cbn in H. now rewrite lookup_empty in H.
Qed.

Lemma reachable_sound s : Reachable trackToTrackInfo s -> sound s.
Proof.
  induction 1 as [|s ev env _ IH].
  - apply sound_empty.
  - unfold step. cbn. now apply sound_handle.
Qed.

Lemma reachable_run es s :
  Reachable trackToTrackInfo s -> Reachable trackToTrackInfo (run trackToTrackInfo es s).
Proof.
  revert s. induction es as [|[ev env] es IH]; intros s H; cbn.
  - exact H.
  - apply IH. now constructor.
Qed.

(** C5: in every state the service can reach, every registered session has
    a history of at most 10 tracks.  Every start of a track on a session
    that has a current track pushes that track onto the history: below 10
    entries the history grows by it, and when the history holds 10, the
    oldest entry is dropped and the track that was current is appended. *)
Theorem history_holds_at_most_ten s :
  Reachable trackToTrackInfo s ->
  (forall g r,
     playerStates s !! g = Some r ->
     exists p, objects s !! r = Some p /\ length (previousTracks p) <= 10) /\
  (forall player trackInfo token station m g r p c oldest rest env url,
     msg_guild m = Some g ->
     truthy_string g = true ->
     playerStates s !! g = Some r ->
     objects s !! r = Some p ->
     currentTrack p = Some c ->
     previousTracks p = oldest :: rest ->
     length (previousTracks p) = 10 ->
     lets_start env url ->
     exists p',
       objects (exec (playTrack player trackInfo token station (Some m) env) s) !! r
         = Some p' /\
       previousTracks p' = rest ++ [currentTrackAsYandexTrack c] /\
       length (previousTracks p') = 10) /\
  (forall player trackInfo token station m g r p c env url,
     msg_guild m = Some g ->
     truthy_string g = true ->
     playerStates s !! g = Some r ->
     objects s !! r = Some p ->
     currentTrack p = Some c ->
     length (previousTracks p) < 10 ->
     lets_start env url ->
     exists p',
       objects (exec (playTrack player trackInfo token station (Some m) env) s) !! r
         = Some p' /\
       previousTracks p' = previousTracks p ++ [currentTrackAsYandexTrack c]).
Proof.
  intros Hreach. destruct (reachable_sound s Hreach) as [Hreg Hb]. split; [|split].
  - intros g r Hr. destruct (Hreg g r Hr) as [p Hp].
    exists p. split; [exact Hp|]. exact (Hb r p Hp).
  - intros player trackInfo token station m g r p c oldest rest env url
      Hg Hgt Hr Hp Hc Hh Hlen (Hfb & Hu & Hut & Hce).
    destruct Hfb as [b Hfb]. unfold exec.
    rewrite (playTrack_started _ _ _ _ m g r p env b url) by auto.
    cbn. rewrite lookup_insert_eq. eexists. split; [reflexivity|].
    unfold started, remembered. rewrite Hc. cbn.
    unfold pushPreviousTrack. rewrite Hlen, Hh. cbn.
    split; [reflexivity|].
    rewrite Hh in Hlen. cbn in Hlen. rewrite length_app, drop_0. cbn. lia.
  - intros player trackInfo token station m g r p c env url
      Hg Hgt Hr Hp Hc Hlen (Hfb & Hu & Hut & Hce).
    destruct Hfb as [b Hfb]. unfold exec.
    rewrite (playTrack_started _ _ _ _ m g r p env b url) by auto.
    cbn. rewrite lookup_insert_eq. eexists. split; [reflexivity|].
    unfold started, remembered. rewrite Hc. cbn.
    unfold pushPreviousTrack.
    destruct (10 <=? length (previousTracks p)) eqn:E; [|reflexivity].
    apply Nat.leb_le in E. lia.
Qed.

(** ** More about the Idle listener *)

(** X1: "next" is an Idle event followed by the reply.  Pressed while the
    current track has played for less than 10 000 ms (and fewer than 3
    retries are counted) it does not skip: the queue and the current track
    stay, [retryCount] grows by one and the retry of the same track is
    scheduled. *)
Theorem next_on_a_young_track_retries g player a c r p t env s :
  players s !! g = Some player ->
  playerStates s !! g = Some r ->
  listeners s !! player = Some a ->
  closures s !! a = Some c ->
  pb_guildId c = g ->
  isLoadingTrack c = false ->
  objects s !! r = Some p ->
  currentTrack p = Some t ->
  (playTime p (env_now env) < MIN_PLAY_TIME)%Z ->
  (retryCount p < MAX_RETRY_COUNT)%Z ->
  onCollect trackToTrackInfo g next env s =
    (Returned tt,
     with_trace (trace s ++ notice (pb_embedMessage c) (ReconnectEmbed t)
                         ++ [InteractionReply ReplyNext])
       (with_timers (timers s ++ [mkTimer 3000 (RetryAfterIdle a r)])
          (with_objects (<[r := with_retryCount (retryCount p + 1) p]> (objects s)) s))).
Proof.
  intros Hpl Hr Hl Hc Hg Hf Hp Ht Hplay Hretry. subst g.
  assert (Hi : interrupted p (env_now env) = true).
  { apply interrupted_spec. rewrite Ht. eauto. }
  unfold onCollect, handleNext. unfold bind at 1. unfold get at 1. rewrite Hpl, Hr.
  unfold bind at 1. unfold get at 1. rewrite Hpl, Hr.
  unfold bind at 1. rewrite (emitIdle_listener _ _ _ _ Hl).
  rewrite (onIdle_interrupted a c r p t env s) by assumption.
  unfold reply. same_service.
Qed.


(** X24: an interruption whose retry finds no stream url leaves the session
    as it was but for the count: when the retry timer comes due and
    getStreamUrl gives nothing usable, the track is still current, the queue,
    the history and the start time are untouched, nothing is handed to the
    transport, no timer is pending from it, and [retryCount] is one higher
    than before the interruption.  Three such interruptions in a row are how
    the count gets to 3. *)
Theorem failed_retry_keeps_the_count player a c r p t env env' b u s :
  listeners s !! player = Some a ->
  closures s !! a = Some c ->
  isLoadingTrack c = false ->
  playerStates s !! pb_guildId c = Some r ->
  objects s !! r = Some p ->
  currentTrack p = Some t ->
  (playTime p (env_now env) < MIN_PLAY_TIME)%Z ->
  (retryCount p < MAX_RETRY_COUNT)%Z ->
  env_feedback env' = Resolved b ->
  env_streamUrl env' = Resolved u ->
  usable u = None ->
  let s1 := exec (emitIdle trackToTrackInfo player env) s in
  let s2 := exec (fireTimer trackToTrackInfo (length (timers s)) env') s1 in
  s2 = with_trace
         (trace s ++ notice (pb_embedMessage c) (ReconnectEmbed t)
                  ++ notice (pb_embedMessage c) (LoadingEmbed t)
                  ++ [TrackStartedFeedback (pb_accessToken c) (pb_stationId c) (ti_id t);
                      StreamUrlRequest (pb_accessToken c) (ti_id t)]
                  ++ notice (pb_embedMessage c) (StreamUrlErrorEmbed t))
         (with_objects (<[r := with_retryCount (retryCount p + 1) p]> (objects s)) s).
Proof.
  intros Hl Hc Hf Hr Hp Ht Hplay Hretry Hfb Hu Huse s1 s2.
  assert (Hi : interrupted p (env_now env) = true).
  { apply interrupted_spec. rewrite Ht. eauto. }
  set (s0 := with_objects (<[r := with_retryCount (retryCount p + 1) p]> (objects s))
               (with_trace (trace s ++ notice (pb_embedMessage c) (ReconnectEmbed t)) s)).
  assert (Hs1 : s1 = with_timers (timers s ++ [mkTimer 3000 (RetryAfterIdle a r)]) s0).
  { subst s1. unfold exec. rewrite (emitIdle_listener _ _ _ _ Hl).
    now rewrite (onIdle_interrupted a c r p t env s). }
  assert (Hs2 : s2 =
    snd (playTrack (pb_player c) t (pb_accessToken c) (pb_stationId c)
           (pb_embedMessage c) env' s0)).
  { subst s2. rewrite Hs1. unfold exec.
    assert (Hfire :
      fireTimer trackToTrackInfo (length (timers s)) env'
        (with_timers (timers s ++ [mkTimer 3000 (RetryAfterIdle a r)]) s0) =
      runCallback trackToTrackInfo (RetryAfterIdle a r) env' s0)
      by exact (fireTimer_last env' (RetryAfterIdle a r) 3000 s0).
    rewrite Hfire.
    rewrite (runCallback_retry_after_idle a c r (with_retryCount (retryCount p + 1) p)
               t env' s0); [ | exact Hc | apply lookup_insert_eq | exact Ht ].
    unfold bind.
    now destruct (playTrack _ _ _ _ _ _ _) as [[?|] ?]. }
  rewrite Hs2.
  rewrite (playTrack_no_url _ _ _ _ _ env' b u s0 Hfb Hu Huse).
  cbn [snd]. apply service_ext; cbn; try reflexivity.
  now rewrite <- !app_assoc.
Qed.



Arguments loadMoreTracks : simpl never.

Lemma loadMoreTracks_nothing c env s :
  gives_nothing (env_stationTracks env) ->
  loadMoreTracks c env s =
    (Returned false,
     with_trace (trace s ++ [StationTracksRequest (pb_accessToken c) (pb_stationId c)]) s).
Proof.
  intros [H|[H|H]]; unfold loadMoreTracks; unfold_monad;
    repeat (progress (cbn; rewrite ?H)).
  - same_service.
  - destruct (playerStates s !! pb_guildId c); same_service.
  - destruct (playerStates s !! pb_guildId c); same_service.
Qed.

(** X4: with an empty queue and a station that has nothing more to give, the
    Idle listener shows the final embed and stops there: no timer is set,
    [isLoadingTrack] is clear again, and no map, session object or closure
    has changed. *)
Theorem exhausted_station_ends_playback player a c r p env s :
  listeners s !! player = Some a ->
  closures s !! a = Some c ->
  isLoadingTrack c = false ->
  playerStates s !! pb_guildId c = Some r ->
  objects s !! r = Some p ->
  interrupted p (env_now env) = false ->
  trackQueue p = [] ->
  gives_nothing (env_stationTracks env) ->
  emitIdle trackToTrackInfo player env s =
    (Returned tt,
     with_trace
       (trace s ++ [StationTracksRequest (pb_accessToken c) (pb_stationId c)]
                ++ notice (pb_embedMessage c) FinishedEmbed) s).
Proof.
  intros Hl Hc Hf Hr Hp Hi Hq Hn.
  rewrite (emitIdle_listener _ _ _ _ Hl).
  unfold onIdle. unfold_monad.
  repeat (progress (cbn; rewrite ?Hc, ?Hf, ?Hr, ?Hp, ?Hi, ?Hq)).
  rewrite loadMoreTracks_nothing by assumption.
  destruct (pb_embedMessage c); cbn; same_service.
  all: rewrite alter_alter_eq, (alter_found _ _ _ _ Hc); cbn;
    rewrite not_loading_again by assumption; now apply insert_id.
Qed.

Lemma interrupted_ignores_queue q p now :
  interrupted (with_trackQueue q p) now = interrupted p now.
Proof. reflexivity. Qed.



(** ** Buttons *)

(** X6: a button pressed for a guild that has no player or no session is
    answered with "not found", whichever button it is, and nothing else
    happens. *)
Theorem button_without_session g customId env s :
  players s !! g = None \/ playerStates s !! g = None ->
  onCollect trackToTrackInfo g customId env s =
    (Returned tt, with_trace (trace s ++ [InteractionReply ReplyNotFound]) s).
Proof.
  intros H. unfold onCollect, bind, get.
  destruct H as [H|H]; rewrite H; [|destruct (players s !! g)]; reflexivity.
Qed.

(** X7: pressing "stop" a second time finds nothing to stop: the answer is
    "not found" and nothing else happens. *)
Theorem stop_twice g pl conn r p env env' s :
  players s !! g = Some pl ->
  connections s !! g = Some conn ->
  playerStates s !! g = Some r ->
  objects s !! r = Some p ->
  let s1 := exec (onCollect trackToTrackInfo g stop env) s in
  onCollect trackToTrackInfo g stop env' s1 =
    (Returned tt, with_trace (trace s1 ++ [InteractionReply ReplyNotFound]) s1).
Proof.
  intros Hpl Hconn Hr Hp s1.
  assert (Hgone : players s1 !! g = None).
  { subst s1. unfold exec. rewrite (stop_removes g pl conn r p env s) by assumption.
    apply lookup_delete_eq. }
  unfold onCollect, bind, get. now rewrite Hgone.
Qed.

Lemma pause_pauses g player r p env s :
  players s !! g = Some player ->
  playerStates s !! g = Some r ->
  objects s !! r = Some p ->
  onCollect trackToTrackInfo g pause env s =
    (Returned tt,
     with_trace (trace s ++ [TransportPause player]
                         ++ match editableEmbed p with
                            | Some m => [EditControls m false]
                            | None => []
                            end
                         ++ [InteractionReply (pauseReply p env)])
       (with_objects (<[r := with_isPlaying false p]> (objects s)) s)).
Proof.
  intros Hpl Hr Hp. unfold onCollect, handlePause, pauseReply, redrawn. unfold_monad.
  repeat (progress (cbn; rewrite ?Hpl, ?Hr, ?Hp)).
  destruct (editableEmbed p); [destruct (env_controlsEdit env) as [[]|]|];
    cbn; same_service.
  all: now rewrite (alter_found _ _ _ _ Hp).
Qed.

Lemma play_resumes g player r p env s :
  players s !! g = Some player ->
  playerStates s !! g = Some r ->
  objects s !! r = Some p ->
  onCollect trackToTrackInfo g play env s =
    (Returned tt,
     with_trace (trace s ++ [TransportUnpause player]
                         ++ match editableEmbed p with
                            | Some m => [EditControls m true]
                            | None => []
                            end
                         ++ [InteractionReply (playReply p env)])
       (with_objects (<[r := with_isPlaying true p]> (objects s)) s)).
Proof.
  intros Hpl Hr Hp. unfold onCollect, handlePlay, playReply, redrawn. unfold_monad.
  repeat (progress (cbn; rewrite ?Hpl, ?Hr, ?Hp)).
  destruct (editableEmbed p); [destruct (env_controlsEdit env) as [[]|]|];
    cbn; same_service.
  all: now rewrite (alter_found _ _ _ _ Hp).
Qed.

Lemma with_isPlaying_same p : with_isPlaying (isPlaying p) p = p.
Proof. now destruct p. Qed.

(** X8: "pause" and then "play" bring a playing session back to the state it
    had: the session objects, the maps, the timers and the closures are what
    they were; only the transport was paused and resumed, the buttons redrawn
    and the two presses answered.  Each press is answered with its
    confirmation, or, when the redrawing of the buttons is rejected, with the
    error text of its [catch]: the transport and [isPlaying] were already
    switched by then.  Neither button sets or clears a timer. *)
Theorem pause_then_play g player r p env env' s :
  players s !! g = Some player ->
  playerStates s !! g = Some r ->
  objects s !! r = Some p ->
  isPlaying p = true ->
  let s1 := exec (onCollect trackToTrackInfo g pause env) s in
  let s2 := exec (onCollect trackToTrackInfo g play env') s1 in
  objects s1 !! r = Some (with_isPlaying false p) /\
  timers s1 = timers s /\
  s2 = with_trace (trace s ++ [TransportPause player]
                           ++ match editableEmbed p with
                              | Some m => [EditControls m false]
                              | None => []
                              end
                           ++ [InteractionReply (pauseReply p env);
                               TransportUnpause player]
                           ++ match editableEmbed p with
                              | Some m => [EditControls m true]
                              | None => []
                              end
                           ++ [InteractionReply (playReply p env')]) s /\
  (editableEmbed p = None \/ env_controlsEdit env = Resolved tt ->
   pauseReply p env = ReplyPaused) /\
  (forall m, editableEmbed p = Some m -> env_controlsEdit env = Rejected ->
   pauseReply p env = ReplyPauseError) /\
  (editableEmbed p = None \/ env_controlsEdit env' = Resolved tt ->
   playReply p env' = ReplyResumed) /\
  (forall m, editableEmbed p = Some m -> env_controlsEdit env' = Rejected ->
   playReply p env' = ReplyResumeError).
Proof.
  intros Hpl Hr Hp Hplaying s1 s2.
  assert (Hs1 : s1 = _) by
    (subst s1; unfold exec; rewrite (pause_pauses g player r p env s) by assumption;
     reflexivity).
  cbn [snd] in Hs1.
  assert (Hs2 : s2 =
    with_trace (trace s1 ++ [TransportUnpause player]
                         ++ match editableEmbed (with_isPlaying false p) with
                            | Some m => [EditControls m true]
                            | None => []
                            end
                         ++ [InteractionReply (playReply (with_isPlaying false p) env')])
       (with_objects (<[r := with_isPlaying true (with_isPlaying false p)]> (objects s1)) s1)).
  { subst s2. unfold exec.
    rewrite (play_resumes g player r (with_isPlaying false p) env' s1);
      [reflexivity | | | ]; rewrite Hs1; cbn; try assumption.
    apply lookup_insert_eq. }
  split; [rewrite Hs1; apply lookup_insert_eq|].
  split; [rewrite Hs1; reflexivity|].
  split.
  { rewrite Hs2, Hs1. apply service_ext; cbn; try reflexivity.
    - rewrite insert_insert_eq. apply insert_id.
      rewrite Hp. f_equal. rewrite <- Hplaying at 1.
      destruct p; reflexivity.
    - change (editableEmbed (with_isPlaying false p)) with (editableEmbed p).
      change (playReply (with_isPlaying false p) env') with (playReply p env').
      destruct (editableEmbed p); cbn; rewrite <- ?app_assoc; reflexivity. }
  unfold pauseReply, playReply, redrawn.
  split; [intros [->| ->]; [reflexivity|now destruct (editableEmbed p)]|].
  split; [intros m -> ->; reflexivity|].
  split; [intros [->| ->]; [reflexivity|now destruct (editableEmbed p)]|].
  intros m -> ->; reflexivity.
Qed.

(** X9: "like" changes nothing in the service.  With a current track it
    sends one like request, for that track and with the token and the user of
    the session, and answers by its outcome; without a current track it sends
    no request. *)
Theorem like_changes_nothing g player r p env s :
  players s !! g = Some player ->
  playerStates s !! g = Some r ->
  objects s !! r = Some p ->
  onCollect trackToTrackInfo g like env s =
    (Returned tt,
     with_trace
       (trace s ++
        match currentTrack p with
        | Some t =>
            [LikeRequest (accessToken p) (userId p) (ti_id t);
             InteractionReply (likeReply t (env_like env))]
        | None => [InteractionReply ReplyNoCurrentTrack]
        end) s).
Proof.
  intros Hpl Hr Hp. unfold onCollect, handleLike. unfold_monad.
  repeat (progress (cbn; rewrite ?Hpl, ?Hr, ?Hp)).
  destruct (currentTrack p) as [t|]; cbn; [|same_service].
  destruct (env_like env) as [[]|]; cbn; same_service.
Qed.

(** ** setupInfinitePlayback and the connection *)

(** Without a message that belongs to a guild, setupInfinitePlayback
    does nothing: no queue is filled and no listener is installed. *)
Lemma setup_without_guild player token station embedMessage initialTracks s :
  truthy_guild (guildIdOf embedMessage) = None ->
  setupInfinitePlayback player token station embedMessage initialTracks s =
    (Returned tt, s).
Proof. intros H. unfold setupInfinitePlayback. now rewrite H. Qed.

(** X10: for the message of a registered session, setupInfinitePlayback
    replaces the queue of the session by the given tracks (what was queued
    is dropped, the rest of the session stays) and installs a new activation
    on the player, with [isLoadingTrack] clear, in place of the one installed
    before. *)
Theorem setup_installs player token station m g r p initialTracks s :
  msg_guild m = Some g ->
  truthy_string g = true ->
  playerStates s !! g = Some r ->
  objects s !! r = Some p ->
  setupInfinitePlayback player token station (Some m) initialTracks s =
    (Returned tt,
     with_listeners (<[player := nextHandle s]> (listeners s))
       (with_closures
          (<[nextHandle s := mkPlayback player token station (Some m) g false]>
             (closures s))
          (with_nextHandle (S (nextHandle s))
             (with_objects (<[r := with_trackQueue initialTracks p]> (objects s)) s)))).
Proof.
  intros Hg Hgt Hr Hp. unfold setupInfinitePlayback, truthy_guild, guildIdOf.
  rewrite Hg, Hgt. unfold_monad.
  repeat (progress (cbn; rewrite ?Hr)).
  same_service. now rewrite (alter_found _ _ _ _ Hp).
Qed.

(** X11: when a connection is lost for good, the connection is destroyed
    and the entries of its guild are removed from the four maps.  The player
    is not stopped, the sessions of other guilds, the session objects, the
    timers and the listeners are left alone. *)
Theorem disconnected_forgets_the_guild g connection s :
  let s1 := exec (onDisconnected g connection) s in
  trace s1 = trace s ++ [ConnectionDestroy connection] /\
  players s1 !! g = None /\
  connections s1 !! g = None /\
  playerStates s1 !! g = None /\
  currentResources s1 !! g = None /\
  (forall g', g' <> g ->
     players s1 !! g' = players s !! g' /\
     connections s1 !! g' = connections s !! g' /\
     playerStates s1 !! g' = playerStates s !! g' /\
     currentResources s1 !! g' = currentResources s !! g') /\
  objects s1 = objects s /\
  timers s1 = timers s /\
  listeners s1 = listeners s /\
  closures s1 = closures s.
Proof.
  cbn. rewrite !lookup_delete_eq. repeat split; try reflexivity.
  all: now apply lookup_delete_ne.
Qed.

(** ** Starting a track, the edge cases *)

(** X12: when the buttons of the session message cannot be redrawn,
    playTrack fails half way.  It returns [false] and hands nothing to the
    transport, but the session already shows the new track as current, with
    the track that was current pushed onto the history; the start time, the
    retry count and the last track id are those of before. *)
Theorem start_fails_half_way player trackInfo token station m g r p m0 env b url s :
  msg_guild m = Some g ->
  truthy_string g = true ->
  playerStates s !! g = Some r ->
  objects s !! r = Some p ->
  env_feedback env = Resolved b ->
  env_streamUrl env = Resolved (Some url) ->
  truthy_string url = true ->
  editableEmbed p = Some m0 ->
  env_controlsEdit env = Rejected ->
  playTrack player trackInfo token station (Some m) env s =
    (Returned false,
     mkService (players s) (connections s) (playerStates s)
       (<[g := createAudioResource url]> (currentResources s))
       (<[r := with_isPlaying true (with_currentTrack (Some trackInfo) (remembered p))]>
          (objects s))
       (closures s) (listeners s) (timers s)
       (trace s ++ [EditEmbed m (LoadingEmbed trackInfo);
                    TrackStartedFeedback token station (ti_id trackInfo);
                    StreamUrlRequest token (ti_id trackInfo);
                    EditControls m0 true;
                    EditEmbed m (PlaybackErrorEmbed trackInfo)])
       (nextHandle s)).
Proof.
  intros Hg Hgt Hr Hp Hf Hu Hut He Hc.
  unfold playTrack, usable, guildIdOf, truthy_guild, get_state. unfold_monad.
  repeat (progress (cbn; rewrite ?Hf, ?Hu, ?Hut, ?Hg, ?Hgt, ?Hr, ?Hp, ?He, ?Hc)).
  unfold remembered.
  destruct (currentTrack p) as [c|] eqn:Hcur;
    repeat (progress (cbn; rewrite ?Hf, ?Hu, ?Hut, ?Hg, ?Hgt, ?Hr, ?Hp, ?He, ?Hc));
    same_service.
  all: rewrite (alter_found _ _ _ _ Hp), !alter_insert_eq; reflexivity.
Qed.

(** X13: called with a message that belongs to no guild, or with no message
    at all, playTrack hands the track to the transport and returns [true],
    but records it nowhere: no map and no session object changes. *)
Theorem playTrack_without_guild player trackInfo token station embedMessage env b url s :
  guildIdOf embedMessage = None ->
  env_feedback env = Resolved b ->
  env_streamUrl env = Resolved (Some url) ->
  truthy_string url = true ->
  playTrack player trackInfo token station embedMessage env s =
    (Returned true,
     with_trace
       (trace s ++ notice embedMessage (LoadingEmbed trackInfo)
                ++ [TrackStartedFeedback token station (ti_id trackInfo);
                    StreamUrlRequest token (ti_id trackInfo);
                    TransportPlay player (createAudioResource url)]
                ++ notice embedMessage (NowPlayingEmbed trackInfo)) s).
Proof.
  intros Hg Hf Hu Hut.
  unfold playTrack, usable, truthy_guild, get_state. unfold_monad.
  destruct embedMessage as [m|]; cbn in Hg;
    repeat (progress (cbn; rewrite ?Hf, ?Hu, ?Hut, ?Hg)); same_service.
Qed.

(** X14: "previous" answers "playing the previous track" whatever playTrack
    returns.  When the stream url of the popped track cannot be had, the
    track is gone from the history without becoming current: the current
    track stays current and is also put at the front of the queue, and
    nothing is handed to the transport. *)
Theorem previous_cannot_start g player r p h prev env b u s :
  players s !! g = Some player ->
  playerStates s !! g = Some r ->
  objects s !! r = Some p ->
  previousTracks p = h ++ [prev] ->
  env_feedback env = Resolved b ->
  env_streamUrl env = Resolved u ->
  usable u = None ->
  let s1 := exec (onCollect trackToTrackInfo g previous env) s in
  objects s1 !! r =
    Some (with_trackQueue
            (match currentTrack p with
             | Some c => currentTrackAsYandexTrack c :: trackQueue p
             | None => trackQueue p
             end)
            (with_previousTracks h p)) /\
  last (trace s1) = Some (InteractionReply ReplyPrevious) /\
  existsb isTransportPlay (drop (length (trace s)) (trace s1)) = false /\
  timers s1 = timers s.
Proof.
  intros Hpl Hr Hp Hh Hf Hu Hn s1.
  assert (Hlen : (length (previousTracks p) =? 0) = false).
  { rewrite Hh, length_app. cbn. apply Nat.eqb_neq. lia. }
  assert (Hlast : last (previousTracks p) = Some prev) by (rewrite Hh; apply last_snoc).
  assert (Hrm : removelast (previousTracks p) = h) by (rewrite Hh; apply removelast_last).
  subst s1. unfold exec, onCollect, handlePrevious, pop. unfold_monad.
  repeat (progress (cbn; rewrite ?Hpl, ?Hr, ?Hp, ?Hlen, ?Hlast)).
  destruct (currentTrack p) as [c|] eqn:Hc; cbn;
    erewrite (playTrack_no_url _ _ _ _ _ env b u) by eassumption; cbn.
  - rewrite !lookup_alter_eq, Hp. cbn. rewrite Hrm.
    split; [reflexivity|]. split; [apply last_snoc|]. split; [|reflexivity].
    rewrite <- !app_assoc, drop_app_length.
    destruct (embedMessage p); reflexivity.
  - rewrite !lookup_alter_eq, Hp. cbn. rewrite Hrm.
    split; [now destruct p|]. split; [apply last_snoc|]. split; [|reflexivity].
    rewrite <- !app_assoc, drop_app_length.
    destruct (embedMessage p); reflexivity.
Qed.

(** ** The error listener and its retry *)

Lemma runCallback_error_exhausted a c r p env s :
  closures s !! a = Some c ->
  objects s !! r = Some p ->
  currentTrack p = None \/ (MAX_RETRY_COUNT <= retryCount p)%Z ->
  listeners s !! pb_player c = Some a ->
  runCallback trackToTrackInfo (RetryAfterError a r) env s =
    onIdle trackToTrackInfo a env
      (with_closures (<[a := with_isLoadingTrack false c]> (closures s)) s).
Proof.
  intros Hc Hp Hex Hl. unfold runCallback, closure, deref, set_isLoadingTrack, modify.
  unfold bind at 1. rewrite Hc. unfold bind at 1. rewrite Hp.
  destruct (currentTrack p) as [t|].
  - destruct Hex as [Hex|Hex]; [discriminate|].
    apply Z.ltb_ge in Hex. rewrite Hex.
    unfold bind at 1. cbv beta iota. rewrite (alter_found _ _ _ _ Hc).
    now apply emitIdle_listener.
  - unfold bind at 1. cbv beta iota. rewrite (alter_found _ _ _ _ Hc).
    now apply emitIdle_listener.
Qed.

(** X15: an error event with a current track shows the problem notice and
    sets a 3000 ms timer, whether [isLoadingTrack] is set or not.  When the
    timer comes due with fewer than 3 retries counted, the current track is
    started again: [retryCount] is 0 afterwards and the track has been pushed
    onto the history. *)
Theorem error_retry_restarts_the_track player a c m r p t env' url s :
  listeners s !! player = Some a ->
  closures s !! a = Some c ->
  plays_for c m ->
  playerStates s !! pb_guildId c = Some r ->
  objects s !! r = Some p ->
  currentTrack p = Some t ->
  (retryCount p < MAX_RETRY_COUNT)%Z ->
  lets_start env' url ->
  let s1 := exec (emitError player) s in
  let s2 := exec (fireTimer trackToTrackInfo (length (timers s)) env') s1 in
  objects s1 = objects s /\
  timers s1 = timers s ++ [mkTimer 3000 (RetryAfterError a r)] /\
  trace s1 = trace s ++ [EditEmbed m (ProblemEmbed t)] /\
  objects s2 !! r =
    Some (started t (env_startTime env') (with_retryCount (retryCount p + 1) p)) /\
  timers s2 = timers s /\
  TransportPlay (pb_player c) (createAudioResource url) ∈ trace s2.
Proof.
  intros Hl Hc (Hm & Hg & Hgt) Hr Hp Ht Hlt ([b Hfb] & Hu & Hut & Hce) s1 s2.
  set (s0 := with_trace (trace s ++ notice (pb_embedMessage c) (ProblemEmbed t)) s).
  assert (Hs1 : s1 = with_timers (timers s ++ [mkTimer 3000 (RetryAfterError a r)]) s0).
  { subst s1. unfold exec. now rewrite (emitError_schedules player a c r p t s). }
  set (s0' := with_objects (<[r := with_retryCount (retryCount p + 1) p]> (objects s0)) s0).
  assert (Hs2 : s2 =
    snd (playTrack (pb_player c) t (pb_accessToken c) (pb_stationId c) (Some m) env' s0')).
  { subst s2. rewrite Hs1. unfold exec.
    assert (Hfire :
      fireTimer trackToTrackInfo (length (timers s)) env'
        (with_timers (timers s ++ [mkTimer 3000 (RetryAfterError a r)]) s0) =
      runCallback trackToTrackInfo (RetryAfterError a r) env' s0)
      by exact (fireTimer_last env' (RetryAfterError a r) 3000 s0).
    rewrite Hfire.
    rewrite (runCallback_retry_after_error a c r p t env' s0) by assumption.
    unfold bind. rewrite Hm.
    now destruct (playTrack _ _ _ _ _ _ _) as [[?|] ?]. }
  rewrite Hs2.
  rewrite (playTrack_started _ _ _ _ m (pb_guildId c) r
             (with_retryCount (retryCount p + 1) p) env' b url s0');
    [ | assumption | assumption | exact Hr | apply lookup_insert_eq
      | assumption | assumption | assumption | right; assumption ].
  rewrite Hs1. cbn [snd].
  split; [reflexivity|].
  split; [reflexivity|].
  split; [cbn; now rewrite Hm|].
  split; [cbn; apply lookup_insert_eq|].
  split; [reflexivity|].
  cbn. rewrite ?elem_of_app, ?elem_of_cons, ?elem_of_app, ?elem_of_cons. tauto.
Qed.

(** X16: when the timer of the error listener comes due with 3 retries
    counted, the listener clears [isLoadingTrack] and emits Idle: the head
    of the queue is started, even if the flag was set when the timer
    fired. *)
Theorem error_retry_exhausted_advances a c m r p nextTrack q env url s :
  listeners s !! pb_player c = Some a ->
  closures s !! a = Some c ->
  plays_for c m ->
  playerStates s !! pb_guildId c = Some r ->
  objects s !! r = Some p ->
  (MAX_RETRY_COUNT <= retryCount p)%Z ->
  trackQueue p = nextTrack :: q ->
  lets_start env url ->
  let s1 := exec (runCallback trackToTrackInfo (RetryAfterError a r) env) s in
  objects s1 !! r =
    Some (started (trackToTrackInfo nextTrack) (env_startTime env) (with_trackQueue q p)) /\
  (isLoadingTrack <$> closures s1 !! a) = Some false /\
  timers s1 = timers s /\
  TransportPlay (pb_player c) (createAudioResource url) ∈ trace s1.
Proof.
  intros Hl Hc Hm Hr Hp Hex Hq Hs s1. subst s1. unfold exec.
  rewrite (runCallback_error_exhausted a c r p env s) by auto.
  set (s0 := with_closures _ s).
  rewrite (onIdle_advances a (with_isLoadingTrack false c) m r p nextTrack q env url s0).
  - cbn [snd].
    split; [cbn; apply lookup_insert_eq|].
    split; [cbn; now rewrite lookup_insert_eq|].
    split; [reflexivity|].
    cbn. rewrite ?elem_of_app, ?elem_of_cons, ?elem_of_app, ?elem_of_cons. tauto.
  - apply lookup_insert_eq.
  - reflexivity.
  - exact Hm.
  - exact Hr.
  - exact Hp.
  - now apply exhausted_not_interrupted.
  - exact Hq.
  - exact Hs.
Qed.

(** ** More invariants of the reachable states *)

Lemma keeps_deref_bind (I : Service -> Prop) {B} r (k : PlayerState -> M B) :
  (forall p s, I s -> objects s !! r = Some p -> I (exec (k p) s)) ->
  keeps I (bind (deref r) k).
Proof.
  intros H s HI. unfold exec, bind, deref.
  destruct (objects s !! r) as [p|] eqn:E; [|exact HI].
  exact (H p s HI E).
Qed.

Lemma keeps_fresh (I : Service -> Prop) :
  (forall s, I s -> I (with_nextHandle (S (nextHandle s)) s)) -> keeps I fresh.
Proof. intros H s HI. exact (H s HI). Qed.

(** Walks through a handler; [leaf] closes what the walk cannot: the
    primitives that write the fields the invariant reads. *)
Ltac keeps_walk leaf :=
  repeat first
    [ leaf
    | match goal with
      | |- keeps _ (try_catch _ _) => apply keeps_try_catch
      | |- keeps _ (bind _ _) => apply keeps_bind; [|intros ?]
      | |- keeps _ (ret _) => apply keeps_ret
      | |- keeps _ throw => apply keeps_throw
      | |- keeps _ get => apply keeps_get
      | |- keeps _ (deref _) => apply keeps_deref
      | |- keeps _ (closure _) => apply keeps_closure
      | |- keeps _ fresh => apply keeps_fresh; intros ? ?; assumption
      | |- keeps _ (modify _) => apply keeps_modify; intros ? ?; assumption
      | |- keeps _ (match ?x with _ => _ end) => destruct x
      | |- keeps _ (emit _) => unfold emit
      | |- keeps _ (setTimeout _ _) => unfold setTimeout
      | |- keeps _ (set_isLoadingTrack _ _) => unfold set_isLoadingTrack
      | |- keeps _ (update _ _) => unfold update
      | |- keeps _ (await _ _) => unfold await
      | |- keeps _ (when_msg _ _) => unfold when_msg
      | |- keeps _ (reply _) => unfold reply
      | |- keeps _ (updateEmbed _ _) => unfold updateEmbed
      | |- keeps _ (updateEmbedWithError _ _) => unfold updateEmbedWithError
      | |- keeps _ (forget _) => unfold forget
      end ].

(** *** The three maps have the same keys *)

Lemma aligned_forget g : keeps registry_aligned (forget g).
Proof.
  intros s H g'. unfold exec, forget. cbn.
  destruct (decide (g = g')) as [->|Hne].
  - rewrite !lookup_delete_eq. split; split; intros [? ?]; discriminate.
  - rewrite !lookup_delete_ne by assumption. apply H.
Qed.

Lemma aligned_createPlayer options env : keeps registry_aligned (createPlayer options env).
Proof.
  intros s H g'. unfold exec.
  destruct (createPlayer_outcome options env s) as [(editable & Hready & Hsend)|(calls & ->)].
  - rewrite (createPlayer_ready options env editable s Hready Hsend). cbn.
    destruct (decide (opt_guildId options = g')) as [->|Hne].
    + rewrite !lookup_insert_eq. split; split; eauto.
    + rewrite !lookup_insert_ne by assumption. apply H.
  - cbn. apply H.
Qed.

Ltac aligned_leaf :=
  idtac;
  match goal with
  | |- keeps _ (forget _) => apply aligned_forget
  | |- keeps _ (createPlayer _ _) => apply aligned_createPlayer
  end.

Lemma aligned_playTrack player trackInfo token station embedMessage env :
  keeps registry_aligned (playTrack player trackInfo token station embedMessage env).
Proof. unfold playTrack. keeps_walk aligned_leaf. Qed.

Lemma aligned_onIdle a env : keeps registry_aligned (onIdle trackToTrackInfo a env).
Proof.
  unfold onIdle, shift, loadMoreTracks.
  keeps_walk ltac:(first [aligned_leaf | simple apply aligned_playTrack]).
Qed.

Lemma aligned_emitIdle player env :
  keeps registry_aligned (emitIdle trackToTrackInfo player env).
Proof. unfold emitIdle. keeps_walk ltac:(simple apply aligned_onIdle). Qed.

Lemma aligned_handle ev env : keeps registry_aligned (handle trackToTrackInfo ev env).
Proof.
  unfold handle, fireTimer, runCallback, onCollect, handleLike, handlePrevious,
    handlePause, handlePlay, handleStop, handleNext, emitError, onError,
    onDisconnected, setupInfinitePlayback, pop.
  keeps_walk ltac:(first [ aligned_leaf | simple apply aligned_playTrack
                         | simple apply aligned_emitIdle ]).
Qed.

(** X17: in every state the service can reach, a guild has a player exactly
    when it has a connection and exactly when it has a session: the three
    maps are written and cleared together. *)
Theorem registry_stays_aligned s :
  Reachable trackToTrackInfo s ->
  forall g,
    (is_Some (players s !! g) <-> is_Some (playerStates s !! g)) /\
    (is_Some (connections s !! g) <-> is_Some (playerStates s !! g)).
Proof.
  induction 1 as [|s ev env _ IH].
  - intros g. cbn. rewrite !lookup_empty. split; split; intros [? ?]; discriminate.
  - unfold step. cbn [fst snd]. now apply aligned_handle.
Qed.

(** *** The retry count stays within its bound *)

Lemma bounded_retries_update r f :
  (forall p, (0 <= retryCount p <= MAX_RETRY_COUNT)%Z ->
             (0 <= retryCount (f p) <= MAX_RETRY_COUNT)%Z) ->
  keeps retries_bounded (update r f).
Proof.
  intros Hf. apply keeps_modify. intros s H r' p'. cbn. rewrite lookup_alter.
  case_decide; [subst|apply H].
  destruct (objects s !! r') as [p0|] eqn:Hp0; cbn; [|discriminate].
  intros [= <-]. apply Hf. now apply (H r').
Qed.

Lemma bounded_retries_increment s s' r p :
  retries_bounded s ->
  objects s !! r = Some p ->
  (retryCount p < MAX_RETRY_COUNT)%Z ->
  objects s' = alter (fun p => with_retryCount (retryCount p + 1) p) r (objects s) ->
  retries_bounded s'.
Proof.
  intros H Hp Hlt Ho r' p'. rewrite Ho, lookup_alter.
  case_decide; [subst|apply H].
  rewrite Hp. cbn. intros [= <-]. cbn. pose proof (H r' p Hp). lia.
Qed.

Lemma bounded_retries_createPlayer options env :
  keeps retries_bounded (createPlayer options env).
Proof.
  intros s H. unfold exec.
  destruct (createPlayer_outcome options env s) as [(editable & Hready & Hsend)|(calls & ->)].
  - rewrite (createPlayer_ready options env editable s Hready Hsend). cbn.
    intros r' p'. cbn. rewrite lookup_insert. case_decide; [|apply H].
    intros [= <-]. cbn. unfold MAX_RETRY_COUNT. lia.
  - exact H.
Qed.

Ltac bounded_retries_leaf :=
  idtac;
  match goal with
  | |- keeps _ (update _ _) =>
      apply bounded_retries_update; intros ? ?; cbn;
      first [assumption | unfold MAX_RETRY_COUNT; lia]
  | |- keeps _ (createPlayer _ _) => apply bounded_retries_createPlayer
  end.

Lemma bounded_retries_playTrack player trackInfo token station embedMessage env :
  keeps retries_bounded (playTrack player trackInfo token station embedMessage env).
Proof. unfold playTrack. keeps_walk bounded_retries_leaf. Qed.

Lemma keeps_after_update (I : Service -> Prop) {B} r f (k : M B) s :
  I (exec (update r f) s) -> keeps I k -> I (exec (update r f ;; k) s).
Proof. intros H Hk. exact (Hk _ H). Qed.

Lemma bounded_retries_onIdle a env : keeps retries_bounded (onIdle trackToTrackInfo a env).
Proof.
  unfold onIdle.
  apply keeps_bind; [apply keeps_closure|intros c].
  apply keeps_bind; [apply keeps_get|intros s0].
  destruct (playerStates s0 !! pb_guildId c) as [r|]; [|apply keeps_ret].
  destruct (isLoadingTrack c); [apply keeps_ret|].
  apply keeps_deref_bind. intros p s HI Hp.
  destruct (interrupted p (env_now env)) eqn:Hi.
  - apply interrupted_spec in Hi as (_ & _ & Hlt).
    apply (bounded_retries_increment s _ r p HI Hp Hlt).
    unfold exec. destruct (currentTrack p); destruct (pb_embedMessage c); reflexivity.
  - refine ((_ : keeps retries_bounded _) s HI).
    unfold shift, loadMoreTracks.
    keeps_walk ltac:(first [ bounded_retries_leaf
                           | simple apply bounded_retries_playTrack ]).
Qed.

Lemma bounded_retries_emitIdle player env :
  keeps retries_bounded (emitIdle trackToTrackInfo player env).
Proof. unfold emitIdle. keeps_walk ltac:(simple apply bounded_retries_onIdle). Qed.

Lemma bounded_retries_runCallback cb env :
  keeps retries_bounded (runCallback trackToTrackInfo cb env).
Proof.
  destruct cb as [a r|a r|a]; unfold runCallback.
  - apply keeps_bind; [apply keeps_closure|intros c].
    apply keeps_deref_bind. intros p s HI Hp.
    destruct (currentTrack p) as [t|].
    + destruct (retryCount p <? MAX_RETRY_COUNT)%Z eqn:Hlt.
      * apply Z.ltb_lt in Hlt. apply keeps_after_update.
        -- now apply (bounded_retries_increment s _ r p HI Hp Hlt).
        -- keeps_walk ltac:(simple apply bounded_retries_playTrack).
      * refine ((_ : keeps retries_bounded _) s HI).
        keeps_walk ltac:(simple apply bounded_retries_emitIdle).
    + refine ((_ : keeps retries_bounded _) s HI).
      keeps_walk ltac:(simple apply bounded_retries_emitIdle).
  - keeps_walk ltac:(simple apply bounded_retries_playTrack).
  - keeps_walk ltac:(simple apply bounded_retries_emitIdle).
Qed.

Lemma bounded_retries_handle ev env :
  keeps retries_bounded (handle trackToTrackInfo ev env).
Proof.
  unfold handle, fireTimer, onCollect, handleLike, handlePrevious,
    handlePause, handlePlay, handleStop, handleNext, emitError, onError,
    onDisconnected, setupInfinitePlayback, pop.
  keeps_walk ltac:(first [ bounded_retries_leaf
                         | simple apply bounded_retries_playTrack
                         | simple apply bounded_retries_emitIdle
                         | simple apply bounded_retries_runCallback ]).
Qed.

(** X18: in every state the service can reach, the retry count of every
    session object lies between 0 and 3: it is only ever reset to 0 or
    incremented from a value below 3. *)
Theorem retry_count_stays_bounded s :
  Reachable trackToTrackInfo s ->
  forall r p, objects s !! r = Some p -> (0 <= retryCount p <= 3)%Z.
Proof.
  induction 1 as [|s ev env _ IH].
  - intros r p. cbn. now rewrite lookup_empty.
  - unfold step. cbn [fst snd]. now apply bounded_retries_handle.
Qed.

(** *** Activations belong to the guild of their message *)

Lemma match_set_isLoadingTrack a b : keeps activations_match (set_isLoadingTrack a b).
Proof.
  apply keeps_modify. intros s H a' c'. cbn. rewrite lookup_alter.
  case_decide; [subst|apply H].
  destruct (closures s !! a') as [c0|] eqn:Hc0; cbn; [|discriminate].
  intros [= <-]. destruct (H a' c0 Hc0) as [m Hm]. exists m. exact Hm.
Qed.

Lemma match_setupInfinitePlayback player token station embedMessage initialTracks :
  keeps activations_match
    (setupInfinitePlayback player token station embedMessage initialTracks).
Proof.
  intros s H. unfold exec, setupInfinitePlayback.
  destruct (truthy_guild (guildIdOf embedMessage)) as [g|] eqn:Hg; [|exact H].
  assert (Hm : exists m, embedMessage = Some m /\ msg_guild m = Some g /\
                         truthy_string g = true).
  { unfold truthy_guild, guildIdOf in Hg.
    destruct embedMessage as [m|]; [|discriminate].
    destruct (msg_guild m) as [i|] eqn:Hmi; [|discriminate].
    destruct (truthy_string i) eqn:Hi; [|discriminate].
    injection Hg as <-. exists m. auto. }
  destruct Hm as (m & -> & Hmg & Hgt).
  unfold_monad. cbn.
  destruct (playerStates s !! g); cbn; intros a c; cbn; rewrite lookup_insert;
    case_decide; try apply H; intros [= <-]; exists m; repeat split; assumption.
Qed.

Ltac match_leaf :=
  idtac;
  match goal with
  | |- keeps _ (set_isLoadingTrack _ _) => apply match_set_isLoadingTrack
  | |- keeps _ (setupInfinitePlayback _ _ _ _ _) => apply match_setupInfinitePlayback
  end.

Lemma match_playTrack player trackInfo token station embedMessage env :
  keeps activations_match (playTrack player trackInfo token station embedMessage env).
Proof. unfold playTrack. keeps_walk match_leaf. Qed.

Lemma match_onIdle a env : keeps activations_match (onIdle trackToTrackInfo a env).
Proof.
  unfold onIdle, shift, loadMoreTracks.
  keeps_walk ltac:(first [match_leaf | simple apply match_playTrack]).
Qed.

Lemma match_emitIdle player env :
  keeps activations_match (emitIdle trackToTrackInfo player env).
Proof. unfold emitIdle. keeps_walk ltac:(simple apply match_onIdle). Qed.

Lemma match_handle ev env : keeps activations_match (handle trackToTrackInfo ev env).
Proof.
  unfold handle, fireTimer, runCallback, onCollect, handleLike, handlePrevious,
    handlePause, handlePlay, handleStop, handleNext, emitError, onError,
    onDisconnected, createPlayer, pop.
  keeps_walk ltac:(first [ match_leaf | simple apply match_playTrack
                         | simple apply match_emitIdle ]).
Qed.

(** X19: in every state the service can reach, every activation of
    setupInfinitePlayback holds a message, and its guild id is the non-empty
    guild id of that message: the listeners and playTrack address the same
    session. *)
Theorem activations_match_their_message s :
  Reachable trackToTrackInfo s ->
  forall a c,
    closures s !! a = Some c ->
    exists m,
      pb_embedMessage c = Some m /\
      msg_guild m = Some (pb_guildId c) /\
      truthy_string (pb_guildId c) = true.
Proof.
  induction 1 as [|s ev env _ IH].
  - intros a c. cbn. now rewrite lookup_empty.
  - unfold step. cbn [fst snd]. now apply match_handle.
Qed.

(** *** An Idle event touches its own session only *)

Lemma keeps_get_bind (I : Service -> Prop) {B} (k : Service -> M B) :
  (forall s0, I s0 -> keeps I (k s0)) -> keeps I (bind get k).
Proof. intros H s HI. exact (H s HI s HI). Qed.

Lemma keeps_closure_bind (I : Service -> Prop) {B} a (k : Playback -> M B) :
  (forall c s, I s -> closures s !! a = Some c -> I (exec (k c) s)) ->
  keeps I (bind (closure a) k).
Proof.
  intros H s HI. unfold exec, bind, closure.
  destruct (closures s !! a) as [c|] eqn:E; [|exact HI].
  exact (H c s HI E).
Qed.

Section Touches.

Variables (g : string) (r : Ref) (a : Activation) (m : Message) (s : Service).
Hypothesis registered_r : playerStates s !! g = Some r.
Hypothesis guild_of_m : msg_guild m = Some g.
Hypothesis guild_truthy : truthy_string g = true.

Lemma touches_update f : keeps (touches_only g r a m s) (update r f).
Proof using Type.
  apply keeps_modify. intros s' (H1 & H2 & H3 & H4 & H5 & H6 & H7 & H8).
  repeat split; try assumption.
  intros r' Hne. cbn. rewrite lookup_alter_ne by congruence. now apply H5.
Qed.

Lemma touches_resource x :
  keeps (touches_only g r a m s)
    (modify (fun s' => with_currentResources (<[g := x]> (currentResources s')) s')).
Proof using Type.
  apply keeps_modify. intros s' (H1 & H2 & H3 & H4 & H5 & H6 & H7 & H8).
  repeat split; try assumption.
  intros g' Hne. cbn. rewrite lookup_insert_ne by congruence. now apply H6.
Qed.

Lemma touches_flag b : keeps (touches_only g r a m s) (set_isLoadingTrack a b).
Proof using Type.
  apply keeps_modify. intros s' (H1 & H2 & H3 & H4 & H5 & H6 & H7 & H8).
  repeat split; try assumption.
  - intros a' Hne. cbn. rewrite lookup_alter_ne by congruence. now apply H7.
  - destruct H8 as (c' & Hc' & Hm & Hg). exists (with_isLoadingTrack b c').
    cbn. rewrite lookup_alter_eq, Hc'. repeat split; try apply Hm. exact Hg.
Qed.

(** A lookup of the session of [g] in a state the invariant holds for finds
    [r]. *)
Ltac touches_lookup :=
  idtac;
  match goal with
  | H : touches_only _ _ _ _ _ ?s0
    |- keeps _ (match playerStates ?s0 !! g with _ => _ end) =>
      let E := fresh in
      assert (E : playerStates s0 !! g = Some r)
        by (rewrite (proj1 H); exact registered_r);
      rewrite E
  end.

Ltac touches_leaf :=
  idtac;
  match goal with
  | |- keeps _ (bind get _) => apply keeps_get_bind; intros ? ?
  | |- keeps _ (match playerStates _ !! g with _ => _ end) => touches_lookup
  | |- keeps _ (update r _) => apply touches_update
  | |- keeps _ (set_isLoadingTrack a _) => apply touches_flag
  | |- keeps _ (modify (fun s' => with_currentResources _ s')) => apply touches_resource
  end.

Lemma touches_playTrack player trackInfo token station env :
  keeps (touches_only g r a m s) (playTrack player trackInfo token station (Some m) env).
Proof using registered_r guild_of_m guild_truthy.
  unfold playTrack, get_state, truthy_guild, guildIdOf.
  rewrite guild_of_m, guild_truthy.
  keeps_walk touches_leaf.
Qed.

Lemma touches_onIdle env :
  keeps (touches_only g r a m s) (onIdle trackToTrackInfo a env).
Proof using registered_r guild_of_m guild_truthy.
  unfold onIdle.
  apply keeps_closure_bind. intros c s' HI Hc.
  assert (Hc' : pb_embedMessage c = Some m /\ pb_guildId c = g).
  { destruct HI as (_ & _ & _ & _ & _ & _ & _ & (c' & Hc' & (Hm & _) & Hg)).
    rewrite Hc in Hc'. injection Hc' as <-. auto. }
  destruct Hc' as [Hm Hg]. rewrite Hm, Hg.
  refine ((_ : keeps (touches_only g r a m s) _) s' HI).
  unfold shift, loadMoreTracks. rewrite Hg.
  keeps_walk ltac:(first [ touches_leaf | simple apply touches_playTrack ]).
Qed.

End Touches.

(** X20: an Idle event on a player whose activation was set up for the
    message of a registered session changes the object of that session, the
    current resource of its guild and the flag of that activation, and
    nothing else of the registry: the other session objects, the entries of
    the other guilds, the other activations and the listeners are as
    before, whatever the outside world answers. *)
Theorem idle_touches_only_its_session player a c m r env s :
  listeners s !! player = Some a ->
  closures s !! a = Some c ->
  plays_for c m ->
  playerStates s !! pb_guildId c = Some r ->
  let s1 := exec (emitIdle trackToTrackInfo player env) s in
  playerStates s1 = playerStates s /\
  players s1 = players s /\
  connections s1 = connections s /\
  listeners s1 = listeners s /\
  (forall r', r' <> r -> objects s1 !! r' = objects s !! r') /\
  (forall g', g' <> pb_guildId c -> currentResources s1 !! g' = currentResources s !! g') /\
  (forall a', a' <> a -> closures s1 !! a' = closures s !! a').
Proof.
  intros Hl Hc Hm Hr s1.
  assert (H : touches_only (pb_guildId c) r a m s s1).
  { subst s1. unfold exec. rewrite (emitIdle_listener _ _ _ _ Hl).
    apply (touches_onIdle (pb_guildId c) r a m s Hr (proj1 (proj2 Hm)) (proj2 (proj2 Hm))).
    repeat split; try reflexivity. exists c. repeat split; try apply Hm. exact Hc. }
  destruct H as (H1 & H2 & H3 & H4 & H5 & H6 & H7 & _).
  repeat split; assumption.
Qed.

(** *** New sessions get new objects *)

Lemma fresh_handles_fresh : keeps handles_fresh fresh.
Proof. intros s H r Hr. cbn. specialize (H r Hr). lia. Qed.

Lemma fresh_handles_update r f : keeps handles_fresh (update r f).
Proof.
  apply keeps_modify. intros s H r' Hr'. cbn in *. apply H.
  rewrite lookup_alter in Hr'. case_decide; [subst|exact Hr'].
  destruct (objects s !! r'); [eauto|]. destruct Hr' as [? Hr']. discriminate.
Qed.

Lemma fresh_handles_createPlayer options env :
  keeps handles_fresh (createPlayer options env).
Proof.
  intros s H. unfold exec.
  destruct (createPlayer_outcome options env s) as [(editable & Hready & Hsend)|(calls & ->)].
  - rewrite (createPlayer_ready options env editable s Hready Hsend). cbn.
    intros r'. cbn. rewrite lookup_insert. case_decide.
    + subst. destruct (opt_channelSends options); lia.
    + intros Hr'. specialize (H r' Hr'). destruct (opt_channelSends options); lia.
  - cbn. intros r' Hr'. cbn. specialize (H r' Hr'). lia.
Qed.

Ltac fresh_handles_leaf :=
  idtac;
  match goal with
  | |- keeps _ fresh => apply fresh_handles_fresh
  | |- keeps _ (update _ _) => apply fresh_handles_update
  | |- keeps _ (createPlayer _ _) => apply fresh_handles_createPlayer
  end.

Lemma fresh_handles_playTrack player trackInfo token station embedMessage env :
  keeps handles_fresh (playTrack player trackInfo token station embedMessage env).
Proof. unfold playTrack. keeps_walk fresh_handles_leaf. Qed.

Lemma fresh_handles_onIdle a env : keeps handles_fresh (onIdle trackToTrackInfo a env).
Proof.
  unfold onIdle, shift, loadMoreTracks.
  keeps_walk ltac:(first [fresh_handles_leaf | simple apply fresh_handles_playTrack]).
Qed.

Lemma fresh_handles_emitIdle player env :
  keeps handles_fresh (emitIdle trackToTrackInfo player env).
Proof. unfold emitIdle. keeps_walk ltac:(simple apply fresh_handles_onIdle). Qed.

Lemma fresh_handles_handle ev env : keeps handles_fresh (handle trackToTrackInfo ev env).
Proof.
  unfold handle, fireTimer, runCallback, onCollect, handleLike, handlePrevious,
    handlePause, handlePlay, handleStop, handleNext, emitError, onError,
    onDisconnected, setupInfinitePlayback, pop.
  keeps_walk ltac:(first [ fresh_handles_leaf | simple apply fresh_handles_playTrack
                         | simple apply fresh_handles_emitIdle ]).
Qed.

Lemma reachable_handles_fresh s : Reachable trackToTrackInfo s -> handles_fresh s.
Proof.
  induction 1 as [|s ev env _ IH].
  - intros r [p Hp]. cbn in Hp. now rewrite lookup_empty in Hp.
  - unfold step. cbn [fst snd]. now apply fresh_handles_handle.
Qed.

(** X21: in a state the service can reach, createPlayer gives the new
    session an object of its own: every session object that existed stays as
    it is (also the one of a session it replaces, which pending timers still
    refer to), the entries of the other guilds are left alone, and no timer,
    closure or listener changes. *)
Theorem createPlayer_leaves_the_rest options env s :
  Reachable trackToTrackInfo s ->
  let s1 := exec (createPlayer options env) s in
  (forall r p, objects s !! r = Some p -> objects s1 !! r = Some p) /\
  (forall g', g' <> opt_guildId options ->
     players s1 !! g' = players s !! g' /\
     connections s1 !! g' = connections s !! g' /\
     playerStates s1 !! g' = playerStates s !! g') /\
  currentResources s1 = currentResources s /\
  timers s1 = timers s /\
  closures s1 = closures s /\
  listeners s1 = listeners s.
Proof.
  intros Hreach s1. pose proof (reachable_handles_fresh s Hreach) as Hfresh.
  subst s1. unfold exec.
  destruct (createPlayer_outcome options env s) as [(editable & Hready & Hsend)|(calls & ->)].
  - rewrite (createPlayer_ready options env editable s Hready Hsend). cbn.
    split.
    + intros r p Hp. rewrite lookup_insert_ne; [exact Hp|].
      assert (r < nextHandle s) by (apply Hfresh; eauto).
      destruct (opt_channelSends options); lia.
    + split; [|repeat split].
      intros g' Hne. rewrite !lookup_insert_ne by congruence. repeat split.
  - cbn. repeat split. auto.
Qed.

(** ** Edge cases of the error listener *)

(** X22: an error event is ignored when the guild of the listener has no
    session, and when the session has no current track: nothing is shown and
    no retry is set. *)
Theorem error_without_track_is_ignored player a c s :
  listeners s !! player = Some a ->
  closures s !! a = Some c ->
  (playerStates s !! pb_guildId c = None \/
   exists r p, playerStates s !! pb_guildId c = Some r /\
               objects s !! r = Some p /\ currentTrack p = None) ->
  emitError player s = (Returned tt, s).
Proof.
  intros Hl Hc H. rewrite (emitError_listener _ _ _ Hl).
  unfold onError. unfold_monad. cbn. rewrite Hc. cbn.
  destruct H as [H|(r & p & Hr & Hp & Ht)].
  - now rewrite H.
  - rewrite Hr. cbn. rewrite Hp. cbn. now rewrite Ht.
Qed.

(** ** Going back and forth *)

Lemma previous_starts g player r p h prev m env url s :
  players s !! g = Some player ->
  playerStates s !! g = Some r ->
  objects s !! r = Some p ->
  previousTracks p = h ++ [prev] ->
  embedMessage p = Some m ->
  msg_guild m = Some g ->
  truthy_string g = true ->
  lets_start env url ->
  let p1 := with_trackQueue
              (match currentTrack p with
               | Some c => currentTrackAsYandexTrack c :: trackQueue p
               | None => trackQueue p
               end) (with_previousTracks h p) in
  onCollect trackToTrackInfo g previous env s =
    (Returned tt,
     mkService (players s) (connections s) (playerStates s)
       (<[g := createAudioResource url]> (currentResources s))
       (<[r := started (trackToTrackInfo prev) (env_startTime env) p1]> (objects s))
       (closures s) (listeners s) (timers s)
       (trace s ++ [EditEmbed m (LoadingEmbed (trackToTrackInfo prev));
                    TrackStartedFeedback (accessToken p) (stationId p)
                      (ti_id (trackToTrackInfo prev));
                    StreamUrlRequest (accessToken p) (ti_id (trackToTrackInfo prev))]
                ++ controlsEdited p
                ++ [TransportPlay player (createAudioResource url);
                    EditEmbed m (NowPlayingEmbed (trackToTrackInfo prev));
                    InteractionReply ReplyPrevious])
       (nextHandle s)).
Proof.
  intros Hpl Hr Hp Hh Hm Hg Hgt (Hf & Hu & Hut & Hce) p1.
  destruct Hf as [b Hf].
  assert (Hlen : (length (previousTracks p) =? 0) = false).
  { rewrite Hh, length_app. cbn. apply Nat.eqb_neq. lia. }
  assert (Hlast : last (previousTracks p) = Some prev) by (rewrite Hh; apply last_snoc).
  assert (Hrm : removelast (previousTracks p) = h) by (rewrite Hh; apply removelast_last).
  unfold onCollect, handlePrevious, pop. unfold_monad.
  repeat (progress (cbn; rewrite ?Hpl, ?Hr, ?Hp, ?Hm, ?Hlen, ?Hlast)).
  destruct (currentTrack p) as [c|] eqn:Hc; cbn;
    erewrite (playTrack_started _ _ _ _ m g r p1 env b url); try eassumption;
    try (right; assumption).
  - same_service; [now rewrite !insert_alter_eq|].
    f_equal. simpl. rewrite <- ?app_assoc. reflexivity.
  - subst p1. cbn. rewrite !lookup_alter_eq, Hp. cbn. now rewrite Hrm.
  - same_service; [now rewrite !insert_alter_eq|].
    f_equal. simpl. rewrite <- ?app_assoc. reflexivity.
  - subst p1. cbn. rewrite !lookup_alter_eq, Hp. cbn. rewrite Hrm. now destruct p.
Qed.

(** X23: after "previous", the track that was playing is the next one: when
    the restored track has ended (an Idle event past the 10 000 ms), the
    listener starts the track it takes from the front of the queue, which is
    the track that was current when "previous" was pressed; the restored
    track goes to the history and the queue is what it was before. *)
Theorem previous_then_next_returns g player a c0 r p c h prev m env env' url url' s :
  players s !! g = Some player ->
  playerStates s !! g = Some r ->
  objects s !! r = Some p ->
  currentTrack p = Some c ->
  previousTracks p = h ++ [prev] ->
  embedMessage p = Some m ->
  listeners s !! player = Some a ->
  closures s !! a = Some c0 ->
  isLoadingTrack c0 = false ->
  plays_for c0 m ->
  pb_guildId c0 = g ->
  lets_start env url ->
  lets_start env' url' ->
  (MIN_PLAY_TIME <= env_now env' - env_startTime env)%Z ->
  env_startTime env <> 0%Z ->
  let s1 := exec (onCollect trackToTrackInfo g previous env) s in
  let s2 := exec (emitIdle trackToTrackInfo player env') s1 in
  exists p2,
    objects s2 !! r = Some p2 /\
    currentTrack p2 = Some (trackToTrackInfo (currentTrackAsYandexTrack c)) /\
    trackQueue p2 = trackQueue p /\
    last (previousTracks p2) =
      Some (currentTrackAsYandexTrack (trackToTrackInfo prev)).
Proof.
  intros Hpl Hr Hp Hc Hh Hm Hl Hc0 Hf Hpf Hg Hs Hs' Hlate Hnz s1 s2.
  destruct Hpf as (Hm0 & Hmg & Hgt). rewrite Hg in Hmg, Hgt.
  set (p1 := started (trackToTrackInfo prev) (env_startTime env)
               (with_trackQueue (currentTrackAsYandexTrack c :: trackQueue p)
                  (with_previousTracks h p))).
  assert (Hs1 : fst (onCollect trackToTrackInfo g previous env s) = Returned tt /\
                objects s1 !! r = Some p1 /\ playerStates s1 = playerStates s /\
                closures s1 = closures s /\ listeners s1 = listeners s).
  { subst s1. unfold exec.
    rewrite (previous_starts g player r p h prev m env url s) by assumption.
    cbn. rewrite lookup_insert_eq, Hc. repeat split. }
  destruct Hs1 as (_ & Hp1 & Hps & Hcl & Hli).
  assert (Hi : interrupted p1 (env_now env') = false).
  { apply not_true_is_false. rewrite interrupted_spec. intros (Hlt & _ & _).
    unfold playTime, p1 in Hlt. cbn in Hlt.
    assert (Ht : truthy_number (env_startTime env) = true).
    { unfold truthy_number. apply negb_true_iff. now apply Z.eqb_neq. }
    rewrite Ht in Hlt. lia. }
  subst s2. unfold exec.
  rewrite (emitIdle_listener player a env' s1) by (rewrite Hli; exact Hl).
  rewrite (onIdle_advances a c0 m r p1 (currentTrackAsYandexTrack c) (trackQueue p)
             env' url' s1).
  - cbn. rewrite lookup_insert_eq. eexists. split; [reflexivity|].
    unfold started, remembered. cbn. rewrite ?Hc. cbn.
    repeat split. unfold pushPreviousTrack. apply last_snoc.
  - rewrite Hcl. exact Hc0.
  - exact Hf.
  - repeat split; try assumption; now rewrite Hg.
  - rewrite Hps, Hg. exact Hr.
  - exact Hp1.
  - exact Hi.
  - unfold p1, started, remembered. cbn. rewrite Hc. reflexivity.
  - exact Hs'.
Qed.
End Properties.

(** * The statements at work on the sample session *)


Lemma playTrack_stream_url_absent_witness :
  result (playTrack Sample.player Sample.C "token" "station" (Some Sample.message)
            (Sample.noUrl 5000)) Sample.playing = Returned false.
Proof.
  apply (playTrack_stream_url_absent Sample.player Sample.C "token" "station"
           (Some Sample.message) (Sample.noUrl 5000) true None Sample.playing);
    reflexivity.
Defined.

Lemma exhausted_retries_advance_witness :
  exists p1,
    objects (run Sample.trackToTrackInfo [(PlayerIdle Sample.player, Sample.fine 10400)]
               Sample.exhausted) !! Sample.session = Some p1 /\
    currentTrack p1 = Some (Sample.trackToTrackInfo Sample.A) /\
    trackQueue p1 = [Sample.B] /\
    previousTracks p1 = [currentTrackAsYandexTrack Sample.C] /\
    retryCount p1 = 0%Z.
Proof.
  edestruct (exhausted_retries_advance Sample.trackToTrackInfo Sample.player
               Sample.activation Sample.setUp Sample.message Sample.session
               Sample.exhaustedC Sample.C Sample.A [Sample.B] (Sample.fine 10400) "url"
               Sample.exhausted) as (H & _).
  11: exact H.
  all: vm_compute; repeat split; eauto.
Defined.

Lemma idle_ignored_while_loading_witness :
  emitIdle Sample.trackToTrackInfo Sample.player (Sample.fine 21000) Sample.loading =
    (Returned tt, Sample.loading).
Proof.
  apply (idle_ignored_while_loading Sample.trackToTrackInfo Sample.player
           Sample.activation Sample.waiting (Sample.fine 21000) Sample.loading);
    vm_compute; reflexivity.
Defined.

Lemma stop_leaves_timers_pending_witness :
  timers Sample.stopped = timers Sample.interruptedOnce /\
  playerStates (exec (fireTimer Sample.trackToTrackInfo 0 (Sample.fine 4100)) Sample.stopped) =
    playerStates Sample.stopped.
Proof.
  edestruct (stop_leaves_timers_pending Sample.trackToTrackInfo "guild-1" Sample.player 7
               Sample.session Sample.interruptedC (Sample.fine 1200)
               Sample.interruptedOnce) as ((H & _) & H2).
  5: { split; [exact H|].
       edestruct (H2 Sample.stopped 0
                     (mkTimer 3000 (RetryAfterIdle Sample.activation Sample.session))
                     Sample.activation Sample.setUp Sample.message (Sample.fine 4100))
         as (_ & Hps & _).
       8: exact Hps.
       all: vm_compute; repeat split; eauto. }
  all: vm_compute; reflexivity.
Defined.

Lemma history_holds_at_most_ten_witness :
  exists p',
    objects (exec (playTrack Sample.player Sample.C "token" "station" (Some Sample.message)
                     (Sample.fine 221000)) Sample.fullHistory) !! Sample.session = Some p' /\
    previousTracks p' =
      [Sample.A; Sample.B; Sample.A; Sample.B; Sample.A; Sample.B; Sample.A; Sample.B;
       Sample.A] ++ [currentTrackAsYandexTrack (Sample.trackToTrackInfo Sample.B)] /\
    length (previousTracks p') = 10.
Proof.
  destruct (history_holds_at_most_ten Sample.trackToTrackInfo Sample.fullHistory)
    as (_ & H & _).
  - unfold Sample.fullHistory, Sample.created.
    do 2 apply reachable_run. apply reach_start.
  - apply (H Sample.player Sample.C "token" "station" Sample.message "guild-1"
             Sample.session Sample.fullP (Sample.trackToTrackInfo Sample.B)
             (currentTrackAsYandexTrack Sample.C)
             [Sample.A; Sample.B; Sample.A; Sample.B; Sample.A; Sample.B; Sample.A;
              Sample.B; Sample.A]
             (Sample.fine 221000) "url").
    all: vm_compute; repeat split; eauto.
Defined.

Lemma createPlayer_replaces_session_witness :
  is_Some (playerStates (exec (createPlayer Sample.options (Sample.fine 10)) Sample.created)
             !! "guild-1").
Proof.
  destruct (createPlayer_replaces_session Sample.options (Sample.fine 10) Sample.session
              Sample.created) as [H _].
  - vm_compute. reflexivity.
  - destruct (H true) as (player & embedMessage & r & _ & _ & _ & Hr & _).
    + reflexivity.
    + reflexivity.
    + exists r. exact Hr.
Defined.

Lemma previous_with_empty_history_witness :
  onCollect Sample.trackToTrackInfo "guild-1" previous (Sample.fine 1500) Sample.playing =
    (Returned tt,
     with_trace (trace Sample.playing ++ [InteractionReply ReplyNoPreviousTracks])
       Sample.playing).
Proof.
  apply (previous_with_empty_history Sample.trackToTrackInfo "guild-1" (Sample.fine 1500)
           Sample.playing Sample.session Sample.player Sample.playingC);
    vm_compute; reflexivity.
Defined.


(** ** Where the spec and the code part *)


(** C2 as the spec states it fails when the retries succeed.  C is
    interrupted three times and each retry starts it again, which resets
    [retryCount]: after the third restart the count is 0 and C is three times
    in the history.  The next Idle event, again within 10 000 ms, does not
    advance to A: it counts a first retry and schedules it. *)
Lemma restarted_interruptions_do_not_advance :
  let s :=
    run Sample.trackToTrackInfo
      [(PlayerIdle Sample.player, Sample.fine 1100); (TimerFires 0, Sample.fine 4100);
       (PlayerIdle Sample.player, Sample.fine 4200); (TimerFires 0, Sample.fine 7200);
       (PlayerIdle Sample.player, Sample.fine 7300); (TimerFires 0, Sample.fine 10300)]
      Sample.playing in
  let s' := run Sample.trackToTrackInfo [(PlayerIdle Sample.player, Sample.fine 10400)] s in
  let restarted :=
    mkPlayerState true (Some Sample.C)
      [currentTrackAsYandexTrack Sample.C; currentTrackAsYandexTrack Sample.C;
       currentTrackAsYandexTrack Sample.C]
      [Sample.A; Sample.B] "token" "user" "station" (Some Sample.message)
      (Some 10300%Z) 0 (Some "C") in
  objects s !! Sample.session = Some restarted /\
  objects s' !! Sample.session = Some (with_retryCount 1 restarted) /\
  timers s' = [mkTimer 3000 (RetryAfterIdle Sample.activation Sample.session)] /\
  existsb isTransportPlay (drop (length (trace s)) (trace s')) = false.
Proof. vm_compute. repeat split; reflexivity. Qed.

(** C8, as the spec states it, fails: the feedback call is awaited inside
    the [try] of playTrack, so when it rejects the track is not started
    although its stream url could be resolved. *)
Lemma feedback_rejection_prevents_start :
  let env := with_feedback Rejected (Sample.fine 1000) in
  let start := playTrack Sample.player Sample.C "token" "station" (Some Sample.message) in
  env_streamUrl env = Resolved (Some "url") /\
  result (start env) Sample.created = Returned false /\
  existsb isTransportPlay (trace (exec (start env) Sample.created)) = false /\
  result (start (Sample.fine 1000)) Sample.created = Returned true.
Proof. vm_compute. repeat split; reflexivity. Qed.

(** C3 as the spec states it fails for error events: in the sample session
    the listener is waiting with [isLoadingTrack] set when an error event
    arrives, and a retry is scheduled all the same.  The timers then come due
    in the order they were set: the listener's own timer first (B cannot be
    started either, so the listener waits again with the flag set), then the
    retry of the error listener, which hands the current track to the
    transport while the flag is set. *)
Lemma error_while_loading_is_not_ignored :
  let afterError :=
    run Sample.trackToTrackInfo [(PlayerError Sample.player, Sample.fine 21000)]
      Sample.loading in
  let waitingAgain :=
    run Sample.trackToTrackInfo [(TimerFires 0, Sample.noUrl 23000)] afterError in
  let afterRetry :=
    run Sample.trackToTrackInfo [(TimerFires 0, Sample.fine 24000)] waitingAgain in
  isLoadingTrack <$> closures Sample.loading !! Sample.activation = Some true /\
  timers afterError =
    timers Sample.loading ++
      [mkTimer 3000 (RetryAfterError Sample.activation Sample.session)] /\
  isLoadingTrack <$> closures waitingAgain !! Sample.activation = Some true /\
  timers waitingAgain =
    [mkTimer 3000 (RetryAfterError Sample.activation Sample.session);
     mkTimer 3000 (EmitIdleAgain Sample.activation)] /\
  drop (length (trace waitingAgain)) (trace afterRetry) =
    [EditEmbed Sample.message (LoadingEmbed Sample.C);
     TrackStartedFeedback "token" "station" "C";
     StreamUrlRequest "token" "C";
     EditControls Sample.message true;
     TransportPlay Sample.player (mkResource "url");
     EditEmbed Sample.message (NowPlayingEmbed Sample.C)].
Proof. vm_compute. repeat split; reflexivity. Qed.

(** C4 as the spec states it fails: "stop" is pressed while the retry of
    track C is pending; the timer is still pending afterwards, and when it
    fires the track is handed to the stopped player. *)
Lemma stop_does_not_cancel_the_retry :
  let afterTimer :=
    run Sample.trackToTrackInfo [(TimerFires 0, Sample.fine 4100)] Sample.stopped in
  playerStates Sample.stopped !! "guild-1" = None /\
  timers Sample.stopped =
    [mkTimer 3000 (RetryAfterIdle Sample.activation Sample.session)] /\
  drop (length (trace Sample.stopped)) (trace afterTimer) =
    [EditEmbed Sample.message (LoadingEmbed Sample.C);
     TrackStartedFeedback "token" "station" "C";
     StreamUrlRequest "token" "C";
     TransportPlay Sample.player (mkResource "url");
     EditEmbed Sample.message (NowPlayingEmbed Sample.C)].
Proof. vm_compute. repeat split; reflexivity. Qed.

(** Once the guild has a session again, a timer left over from the
    stopped one acts on the new session.  After the stop of the sample
    session a second player is created for the guild and A is started on it;
    the retry of C that was pending at the stop then makes C the current
    track of the new session and pushes A onto its history. *)
Example stale_retry_reaches_a_new_session :
  let message' := mkMessage 5 (Some "guild-1") true in
  let s :=
    run Sample.trackToTrackInfo
      [(CreatePlayer Sample.options, Sample.fine 2000);
       (PlayTrack 4 (Sample.trackToTrackInfo Sample.A) "token" "station" (Some message'),
        Sample.fine 2100)]
      Sample.stopped in
  let s' := run Sample.trackToTrackInfo [(TimerFires 0, Sample.fine 4100)] s in
  playerStates s !! "guild-1" = Some 6 /\
  (currentTrack <$> objects s !! 6) = Some (Some (Sample.trackToTrackInfo Sample.A)) /\
  (previousTracks <$> objects s !! 6) = Some [] /\
  (currentTrack <$> objects s' !! 6) = Some (Some Sample.C) /\
  (previousTracks <$> objects s' !! 6) =
    Some [currentTrackAsYandexTrack (Sample.trackToTrackInfo Sample.A)].
Proof. vm_compute. repeat split; reflexivity. Qed.

(** C6 as the spec states it fails: a second createPlayer for the same
    guild returns normally and replaces the session. *)
Lemma second_createPlayer_is_accepted :
  let again := createPlayer Sample.options (Sample.fine 10) in
  playerStates Sample.created !! "guild-1" = Some Sample.session /\
  result again Sample.created =
    Returned (3, 7, Some (mkMessage 4 (Some "guild-1") true)) /\
  playerStates (exec again Sample.created) !! "guild-1" = Some 5 /\
  objects (exec again Sample.created) !! 5 =
    Some (initialState Sample.options (Some (mkMessage 4 (Some "guild-1") true))).
Proof. vm_compute. repeat split; reflexivity. Qed.

(** When the player message cannot be sent, createPlayer fails after the
    connection got ready: nothing is registered, the session of the guild
    stays, and the new connection is not destroyed. *)
Example rejected_send_registers_nothing :
  let again := createPlayer Sample.options (Sample.noSend 10) in
  result again Sample.created = Thrown /\
  playerStates (exec again Sample.created) !! "guild-1" = Some Sample.session /\
  drop (length (trace Sample.created)) (trace (exec again Sample.created)) =
    [Join "guild-1" 7; Subscribe 7 3; SendEmbed "guild-1" InitialEmbed].
Proof. vm_compute. repeat split; reflexivity. Qed.

(** ** The scenario of the spec *)

(** Queue [A; B], current track C; C is interrupted three times and cannot
    be restarted; the next Idle event advances: history [C], current track
    A, queue [B]. *)
Example three_interruptions_then_advance :
  objects Sample.exhausted !! Sample.session = Some Sample.exhaustedC /\
  objects (run Sample.trackToTrackInfo [(PlayerIdle Sample.player, Sample.fine 10400)]
             Sample.exhausted) !! Sample.session =
    Some (mkPlayerState true (Some (Sample.trackToTrackInfo Sample.A))
            [currentTrackAsYandexTrack Sample.C] [Sample.B]
            "token" "user" "station" (Some Sample.message)
            (Some 10400%Z) 0 (Some "A")).
Proof. vm_compute. split; reflexivity. Qed.

(** A retry that succeeds starts the count again: after an interruption and
    a successful restart [retryCount] is 0, and the restarted track has also
    been pushed onto the history. *)
Example successful_retry_resets_the_count :
  let s := run Sample.trackToTrackInfo [(TimerFires 0, Sample.fine 4100)]
             Sample.interruptedOnce in
  (retryCount <$> objects s !! Sample.session) = Some 0%Z /\
  (previousTracks <$> objects s !! Sample.session) =
    Some [currentTrackAsYandexTrack Sample.C].
Proof. vm_compute. split; reflexivity. Qed.

(** ** The further properties on the sample session *)

Lemma next_on_a_young_track_retries_witness :
  timers (exec (onCollect Sample.trackToTrackInfo "guild-1" next (Sample.fine 1100))
            Sample.playing) =
    [mkTimer 3000 (RetryAfterIdle Sample.activation Sample.session)].
Proof.
  unfold exec.
  rewrite (next_on_a_young_track_retries Sample.trackToTrackInfo "guild-1" Sample.player
             Sample.activation Sample.setUp Sample.session Sample.playingC Sample.C
             (Sample.fine 1100) Sample.playing).
  1: reflexivity.
  all: vm_compute; reflexivity.
Defined.



Lemma exhausted_station_ends_playback_witness :
  emitIdle Sample.trackToTrackInfo Sample.player (Sample.fine 20000) Sample.lastTrack =
    (Returned tt,
     with_trace
       (trace Sample.lastTrack ++
        [StationTracksRequest "token" "station";
         EditEmbed Sample.message FinishedEmbed]) Sample.lastTrack).
Proof.
  apply (exhausted_station_ends_playback Sample.trackToTrackInfo Sample.player
           Sample.activation (with_isLoadingTrack false Sample.setUp) Sample.session
           Sample.lastC (Sample.fine 20000) Sample.lastTrack).
  8: (right; left; reflexivity).
  all: vm_compute; reflexivity.
Defined.


Lemma button_without_session_witness :
  onCollect Sample.trackToTrackInfo "guild-1" pause (Sample.fine 1300) Sample.stopped =
    (Returned tt,
     with_trace (trace Sample.stopped ++ [InteractionReply ReplyNotFound]) Sample.stopped).
Proof.
  apply (button_without_session Sample.trackToTrackInfo "guild-1" pause (Sample.fine 1300)
           Sample.stopped).
  left. vm_compute. reflexivity.
Defined.

Lemma stop_twice_witness :
  last (trace (run Sample.trackToTrackInfo
                 [(Collect "guild-1" stop, Sample.fine 1200);
                  (Collect "guild-1" stop, Sample.fine 1300)] Sample.playing)) =
    Some (InteractionReply ReplyNotFound).
Proof.
  change (run Sample.trackToTrackInfo
            [(Collect "guild-1" stop, Sample.fine 1200);
             (Collect "guild-1" stop, Sample.fine 1300)] Sample.playing)
    with (exec (onCollect Sample.trackToTrackInfo "guild-1" stop (Sample.fine 1300))
            (exec (onCollect Sample.trackToTrackInfo "guild-1" stop (Sample.fine 1200))
               Sample.playing)).
  unfold exec at 1.
  rewrite (stop_twice Sample.trackToTrackInfo "guild-1" Sample.player 7 Sample.session
             Sample.playingC (Sample.fine 1200) (Sample.fine 1300) Sample.playing).
  1: apply last_snoc.
  all: vm_compute; reflexivity.
Defined.

Lemma pause_then_play_witness :
  timers (exec (onCollect Sample.trackToTrackInfo "guild-1" pause (Sample.fine 1200))
            Sample.interruptedOnce) = timers Sample.interruptedOnce.
Proof.
  edestruct (pause_then_play Sample.trackToTrackInfo "guild-1" Sample.player
               Sample.session Sample.interruptedC (Sample.fine 1200) (Sample.fine 1300)
               Sample.interruptedOnce) as (_ & H & _).
  5: exact H.
  all: vm_compute; reflexivity.
Defined.

Lemma like_changes_nothing_witness :
  onCollect Sample.trackToTrackInfo "guild-1" like (Sample.fine 1200) Sample.playing =
    (Returned tt,
     with_trace
       (trace Sample.playing ++
        [LikeRequest "token" "user" "C"; InteractionReply (ReplyLiked Sample.C)])
       Sample.playing).
Proof.
  apply (like_changes_nothing Sample.trackToTrackInfo "guild-1" Sample.player
           Sample.session Sample.playingC (Sample.fine 1200) Sample.playing);
    vm_compute; reflexivity.
Defined.

Lemma setup_installs_witness :
  listeners (exec (setupInfinitePlayback Sample.player "token" "station"
                     (Some Sample.message) [Sample.B]) Sample.playing)
    !! Sample.player = Some (nextHandle Sample.playing).
Proof.
  unfold exec.
  rewrite (setup_installs Sample.player "token" "station" Sample.message "guild-1"
             Sample.session Sample.playingC [Sample.B] Sample.playing).
  1: apply lookup_insert_eq.
  all: vm_compute; reflexivity.
Defined.

Lemma start_fails_half_way_witness :
  result (playTrack Sample.player (Sample.trackToTrackInfo Sample.A) "token" "station"
            (Some Sample.message) (Sample.noControls 20000)) Sample.playing =
    Returned false.
Proof.
  unfold result.
  rewrite (start_fails_half_way Sample.player (Sample.trackToTrackInfo Sample.A) "token"
             "station" Sample.message "guild-1" Sample.session Sample.playingC
             Sample.message (Sample.noControls 20000) true "url" Sample.playing).
  1: reflexivity.
  all: vm_compute; reflexivity.
Defined.

Lemma playTrack_without_guild_witness :
  result (playTrack Sample.player (Sample.trackToTrackInfo Sample.A) "token" "station"
            None (Sample.fine 20000)) Sample.playing = Returned true.
Proof.
  unfold result.
  rewrite (playTrack_without_guild Sample.player (Sample.trackToTrackInfo Sample.A)
             "token" "station" None (Sample.fine 20000) true "url" Sample.playing).
  1: reflexivity.
  all: vm_compute; reflexivity.
Defined.

Lemma previous_cannot_start_witness :
  objects (exec (onCollect Sample.trackToTrackInfo "guild-1" previous (Sample.noUrl 25000))
             Sample.advanced) !! Sample.session =
    Some (with_trackQueue
            [currentTrackAsYandexTrack (Sample.trackToTrackInfo Sample.A); Sample.B]
            (with_previousTracks [] Sample.playingA)).
Proof.
  edestruct (previous_cannot_start Sample.trackToTrackInfo "guild-1" Sample.player
               Sample.session Sample.playingA [] (currentTrackAsYandexTrack Sample.C)
               (Sample.noUrl 25000) true None Sample.advanced) as (H & _).
  8: exact H.
  all: vm_compute; reflexivity.
Defined.

Lemma error_retry_restarts_the_track_witness :
  timers (exec (emitError Sample.player) Sample.playing) =
    [mkTimer 3000 (RetryAfterError Sample.activation Sample.session)].
Proof.
  edestruct (error_retry_restarts_the_track Sample.trackToTrackInfo Sample.player
               Sample.activation Sample.setUp Sample.message Sample.session
               Sample.playingC Sample.C (Sample.fine 4000) "url" Sample.playing)
    as (_ & H & _).
  9: exact H.
  all: vm_compute; repeat split; eauto.
Defined.

Lemma error_retry_exhausted_advances_witness :
  objects (exec (runCallback Sample.trackToTrackInfo
                   (RetryAfterError Sample.activation Sample.session) (Sample.fine 10400))
             Sample.exhausted) !! Sample.session =
    Some (started (Sample.trackToTrackInfo Sample.A) 10400
            (with_trackQueue [Sample.B] Sample.exhaustedC)).
Proof.
  edestruct (error_retry_exhausted_advances Sample.trackToTrackInfo Sample.activation
               Sample.setUp Sample.message Sample.session Sample.exhaustedC Sample.A
               [Sample.B] (Sample.fine 10400) "url" Sample.exhausted) as (H & _).
  9: exact H.
  all: vm_compute; repeat split; eauto; discriminate.
Defined.

Lemma registry_stays_aligned_witness :
  is_Some (players Sample.advanced !! "guild-1") <->
  is_Some (playerStates Sample.advanced !! "guild-1").
Proof.
  destruct (registry_stays_aligned Sample.trackToTrackInfo Sample.advanced) with "guild-1"
    as [H _].
  - unfold Sample.advanced, Sample.playing, Sample.created.
    do 3 apply reachable_run. apply reach_start.
  - exact H.
Defined.

Lemma retry_count_stays_bounded_witness :
  (0 <= retryCount Sample.exhaustedC <= 3)%Z.
Proof.
  apply (retry_count_stays_bounded Sample.trackToTrackInfo Sample.exhausted)
    with Sample.session.
  - unfold Sample.exhausted, Sample.playing, Sample.created.
    do 3 apply reachable_run. apply reach_start.
  - vm_compute. reflexivity.
Defined.

Lemma activations_match_their_message_witness :
  exists m,
    pb_embedMessage Sample.waiting = Some m /\
    msg_guild m = Some (pb_guildId Sample.waiting) /\
    truthy_string (pb_guildId Sample.waiting) = true.
Proof.
  apply (activations_match_their_message Sample.trackToTrackInfo Sample.loading)
    with Sample.activation.
  - unfold Sample.loading, Sample.playing, Sample.created.
    do 3 apply reachable_run. apply reach_start.
  - vm_compute. reflexivity.
Defined.

Lemma idle_touches_only_its_session_witness :
  listeners Sample.advanced = listeners Sample.playing.
Proof.
  edestruct (idle_touches_only_its_session Sample.trackToTrackInfo Sample.player
               Sample.activation Sample.setUp Sample.message Sample.session
               (Sample.fine 20000) Sample.playing) as (_ & _ & _ & H & _).
  5: exact H.
  all: vm_compute; repeat split; eauto.
Defined.

Lemma createPlayer_leaves_the_rest_witness :
  objects (exec (createPlayer Sample.options (Sample.fine 30000)) Sample.advanced)
    !! Sample.session = Some Sample.playingA.
Proof.
  edestruct (createPlayer_leaves_the_rest Sample.trackToTrackInfo Sample.options
               (Sample.fine 30000) Sample.advanced) as (H & _).
  - unfold Sample.advanced, Sample.playing, Sample.created.
    do 3 apply reachable_run. apply reach_start.
  - apply H. vm_compute. reflexivity.
Defined.

Lemma error_without_track_is_ignored_witness :
  emitError Sample.player Sample.stopped = (Returned tt, Sample.stopped).
Proof.
  apply (error_without_track_is_ignored Sample.player Sample.activation Sample.setUp
           Sample.stopped).
  3: (left; vm_compute; reflexivity).
  all: vm_compute; reflexivity.
Defined.

Lemma previous_then_next_returns_witness :
  exists p2,
    objects (run Sample.trackToTrackInfo
               [(Collect "guild-1" previous, Sample.fine 25000);
                (PlayerIdle Sample.player, Sample.fine 40000)] Sample.advanced)
      !! Sample.session = Some p2 /\
    currentTrack p2 =
      Some (Sample.trackToTrackInfo
              (currentTrackAsYandexTrack (Sample.trackToTrackInfo Sample.A))) /\
    trackQueue p2 = [Sample.B].
Proof.
  edestruct (previous_then_next_returns Sample.trackToTrackInfo "guild-1" Sample.player
               Sample.activation Sample.setUp Sample.session Sample.playingA
               (Sample.trackToTrackInfo Sample.A) [] (currentTrackAsYandexTrack Sample.C)
               Sample.message (Sample.fine 25000) (Sample.fine 40000) "url" "url"
               Sample.advanced) as (p2 & H1 & H2 & H3 & _).
  16: (exists p2; repeat split; assumption).
  all: vm_compute; repeat split; eauto; discriminate.
Defined.

Lemma failed_retry_keeps_the_count_witness :
  objects (run Sample.trackToTrackInfo
             [(PlayerIdle Sample.player, Sample.fine 1100);
              (TimerFires 0, Sample.noUrl 4100)] Sample.playing) !! Sample.session =
    Some Sample.interruptedC.
Proof.
  change (run Sample.trackToTrackInfo
            [(PlayerIdle Sample.player, Sample.fine 1100);
             (TimerFires 0, Sample.noUrl 4100)] Sample.playing)
    with (exec (fireTimer Sample.trackToTrackInfo (length (timers Sample.playing))
                  (Sample.noUrl 4100))
            (exec (emitIdle Sample.trackToTrackInfo Sample.player (Sample.fine 1100))
               Sample.playing)).
  rewrite (failed_retry_keeps_the_count Sample.trackToTrackInfo Sample.player
             Sample.activation Sample.setUp Sample.session Sample.playingC Sample.C
             (Sample.fine 1100) (Sample.noUrl 4100) true None Sample.playing).
  1: (cbn; apply lookup_insert_eq).
  all: vm_compute; reflexivity.
Defined.
